(** * sdr-rewind: the rolling chunk store of [sdrrewind.py]

    A shallow embedding of the capture loop, the retention enforcer
    ([prune_seconds]) and the window extractor ([extract_slice]), and the
    properties of the specification checked against them.

    Numbers.  The wall clock and every [timestamp_utc] are integers counting
    microseconds since the epoch (the resolution of [datetime]); a time
    stamp is an instant with an offset, as [utcnow_iso] writes it.
    Quantities that the program holds in seconds ([duration_s],
    [buffer_sec], [start_rel_s]) are whole numbers of seconds, which is what
    the capture loop writes ([float(chunk_sec)] with an integer
    [chunk_sec]); [timedelta(seconds=s)] is [usec s].  The program adds the
    durations as floats: on whole numbers the float sum is the exact sum as
    long as the magnitudes add up to at most 2^53 ([float_exact]), and the
    theorems that depend on the value of a sum state this bound.

    Files.  A capture directory holds descriptor files [<stem>.json] and
    raw-sample files [<stem>.iq].  The descriptor files are kept as the list
    [glob("*.json")] yields, in the order it yields them; the raw files are
    a finite map from the stem.  A stem is not empty: for the one file
    called [.json] the stem of [pathlib] is the whole name. *)

From Stdlib Require Import ZArith String Ascii Strings.Byte OrderedTypeEx.
From stdpp Require Import base list sorting gmap strings pretty.

Local Open Scope Z_scope.

(** ** Chunk descriptors *)

(** What reading one key of a decoded JSON object gives: the key is not
    there, its value cannot be converted ([float] or [fromisoformat]
    raises), or the converted value. *)
Inductive field (A : Type) : Type :=
  | Absent
  | Invalid
  | Value (a : A).
Arguments Absent {A}.
Arguments Invalid {A}.
Arguments Value {A} a.

Record meta : Type := Meta {
  center_freq_hz : option Z;
  samp_rate_hz : option Z;
  timestamp_utc : field Z;
  duration_s : field Z
}.

(** The text of a descriptor file as [json.loads] sees it: [None] when the
    text is not a JSON object (a partial write, a corrupt file). *)
Abbreviation descriptor := (option meta).

Record directory : Type := Directory {
  listing : list (string * descriptor);
  samples : gmap string (list byte)
}.

Definition stems (l : list (string * descriptor)) : list string := l.*1.

(** ** Utilities *)

(** [sorted] and [list.sort]: a stable sort, elements that compare equal
    keep the order they had. *)
Fixpoint insert_sorted {A} (le : A → A → bool) (x : A) (l : list A) : list A :=
  match l with
  | [] => [x]
  | y :: l' => if le x y then x :: y :: l' else y :: insert_sorted le x l'
  end.

Definition sorted {A} (le : A → A → bool) (l : list A) : list A :=
  foldr (insert_sorted le) [] l.

(** The order a comparison function stands for. *)
Definition le_rel {A} (le : A → A → bool) : relation A := λ x y, le x y = true.

(** [Path.unlink]: [None] stands for [FileNotFoundError]. *)
Definition unlink_json (p : string) (d : directory) : option directory :=
  if bool_decide (p ∈ stems (listing d))
  then Some (Directory (filter (λ e, e.1 ≠ p) (listing d)) (samples d))
  else None.

Definition unlink_iq (p : string) (d : directory) : option directory :=
  match samples d !! p with
  | Some _ => Some (Directory (listing d) (delete p (samples d)))
  | None => None
  end.

(** [try: p.unlink() except FileNotFoundError: pass] *)
Definition try_unlink (f : directory → option directory) (d : directory) : directory :=
  default d (f d).

(** ** Retention enforcer *)

(** Paths of one directory compare by their file name. *)
Definition path_le (a b : string) : bool :=
  String.leb (String.append a ".json") (String.append b ".json").

Definition entry_le (a b : string * descriptor) : bool := path_le a.1 b.1.

(** Lines 102-106: [float(meta.get("duration_s", 0))], and [0] when
    reading, decoding or converting raises. *)
Definition read_duration (c : descriptor) : Z :=
  match c with
  | Some m =>
      match duration_s m with
      | Value v => v
      | Absent => 0
      | Invalid => 0
      end
  | None => 0
  end.

(** The first loop of [prune_seconds], over [reversed(files)]: the paths
    appended to [kept]. *)
Fixpoint accumulate (buffer_sec total : Z) (files : list (string * descriptor))
  : list string :=
  match files with
  | [] => []
  | (meta_path, c) :: rest =>
      let total := total + read_duration c in
      meta_path ::
        (if buffer_sec <=? total then [] else accumulate buffer_sec total rest)
  end.

Definition kept_paths (l : list (string * descriptor)) (buffer_sec : Z) : list string :=
  accumulate buffer_sec 0 (reverse (sorted entry_le l)).

(** The files in the order the first loop visits them. *)
Definition visit_order (l : list (string * descriptor)) : list (string * descriptor) :=
  reverse (sorted entry_le l).

Definition kept_count (l : list (string * descriptor)) (R : Z) : nat :=
  length (kept_paths l R).

(** One round of the second loop. *)
Definition prune_step (keep_set : gset string) (d : directory)
    (f : string * descriptor) : directory :=
  if bool_decide (f.1 ∈ keep_set) then d
  else try_unlink (unlink_iq f.1) (try_unlink (unlink_json f.1) d).

Definition prune_seconds (outdir : directory) (buffer_sec : Z) : directory :=
  let files := sorted entry_le (listing outdir) in
  let kept := accumulate buffer_sec 0 (reverse files) in
  let keep_set : gset string := list_to_set kept in
  foldl (prune_step keep_set) outdir files.

(** The cumulative nominal duration of a list of descriptors. *)
Definition total_duration (l : list (string * descriptor)) : Z :=
  foldr (λ e acc, read_duration e.2 + acc) 0 l.

Definition history (d : directory) : Z := total_duration (listing d).

(** ** Window extractor *)

(** [timedelta(seconds=s)], in microseconds. *)
Definition usec (s : Z) : Z := s * 1000000.

(** The range of [timedelta], in whole seconds: from -999999999 days to
    999999999 days, 23:59:59. *)
Definition timedelta_min_s : Z := -86399999913600.
Definition timedelta_max_s : Z := 86399999999999.

(** The range of [datetime], in microseconds since the epoch: from
    0001-01-01T00:00:00 to 9999-12-31T23:59:59.999999. *)
Definition datetime_min : Z := -62135596800000000.
Definition datetime_max : Z := 253402300799999999.

(** Line 136, [t + timedelta(seconds=dur)], raises [OverflowError]: the
    duration is outside the range of [timedelta], or the step leaves the
    range of [datetime] (for a time stamp written with the offset of UTC,
    as [utcnow_iso] writes it). *)
Definition end_overflows (t dur : Z) : bool :=
  (dur <? timedelta_min_s) || (timedelta_max_s <? dur)
  || ((0 <? dur) && (datetime_max <? t + usec dur))
  || ((dur <? 0) && (t + usec dur <? datetime_min)).

(** Lines 133-136, the body of the [try]: [None] is the [except] branch. *)
Definition read_meta (c : descriptor) : option (Z * Z) :=
  match c with
  | Some m =>
      match timestamp_utc m with
      | Value t =>
          match duration_s m with
          | Value dur => if end_overflows t dur then None else Some (t, dur)
          | Absent => if end_overflows t 0 then None else Some (t, 0)
          | Invalid => None
          end
      | Absent => None
      | Invalid => None
      end
  | None => None
  end.

(** Lines 130-140: the tuples [(t, dur, meta_path)] appended to [metas],
    in the order the directory is enumerated.  The comparison of line 139
    is the one of two instants: a time stamp written without an offset,
    which [fromisoformat] accepts and line 139 cannot compare with the
    window, has no [Value] here. *)
Fixpoint collect (start_time end_time : Z) (files : list (string * descriptor))
  : list (Z * Z * string) :=
  match files with
  | [] => []
  | (meta_path, c) :: rest =>
      match read_meta c with
      | None => collect start_time end_time rest
      | Some (t, dur) =>
          let t_end := t + usec dur in
          if (t <=? end_time) && (start_time <=? t_end)
          then (t, dur, meta_path) :: collect start_time end_time rest
          else collect start_time end_time rest
      end
  end.

(** [key=lambda x: x[0]] *)
Definition key_le (x y : Z * Z * string) : bool := x.1.1 <=? y.1.1.

(** Lines 126-142 for a window whose two ends lines 127-128 can compute
    ([window_resolves] below). *)
Definition select (outdir : directory) (now start_rel_s dur_s : Z)
  : list (Z * Z * string) :=
  let start_time := now + usec start_rel_s in
  let end_time := start_time + usec dur_s in
  sorted key_le (collect start_time end_time (listing outdir)).

Inductive exn : Type :=
  | FileNotFoundError
  | KeyError.

Inductive status : Type :=
  | Completed
  | SysExit (code : Z)
  | Uncaught (e : exn).

(** The descriptor written next to the output. *)
Record combined : Type := Combined {
  out_center_freq_hz : Z;
  out_samp_rate_hz : Z;
  out_timestamp_utc : Z;
  requested_window : Z * Z
}.

(** What one call leaves behind: how it ended, and the two output files
    ([None]: the file was not created). *)
Record outcome : Type := Outcome {
  ended : status;
  out_iq : option (list byte);
  out_json : option combined
}.

(** Lines 147-150: the bytes written to [fo], and whether every
    [read_bytes] returned. *)
Fixpoint write_chunks (raw : gmap string (list byte)) (metas : list (Z * Z * string))
    (fo : list byte) : list byte * bool :=
  match metas with
  | [] => (fo, true)
  | (_, _, meta_path) :: rest =>
      match raw !! meta_path with
      | Some b => write_chunks raw rest (fo ++ b)
      | None => (fo, false)
      end
  end.

(** [json.loads(meta_path.read_text())] for a path the directory listed.
    (A path that is not there reads as undecodable; line 152 only reads a
    path that [glob] returned.) *)
Fixpoint read_json (l : list (string * descriptor)) (p : string) : descriptor :=
  match l with
  | [] => None
  | (q, c) :: l' => if decide (q = p) then c else read_json l' p
  end.

(** [extract_slice]; [now] is the clock read on line 126 and [now'] the one
    read for the output descriptor.  The output path is taken to name no
    file of the capture directory, and the window is one whose two ends
    lines 127-128 can compute. *)
Definition extract_slice (outdir : directory) (now now' : Z)
    (start_rel_s dur_s : Z) : outcome :=
  let metas := select outdir now start_rel_s dur_s in
  match metas with
  | [] => Outcome (SysExit 1) None None
  | (_, _, first_path) :: _ =>
      match write_chunks (samples outdir) metas [] with
      | (fo, false) => Outcome (Uncaught FileNotFoundError) (Some fo) None
      | (fo, true) =>
          match read_json (listing outdir) first_path with
          | Some first_meta =>
              match center_freq_hz first_meta, samp_rate_hz first_meta with
              | Some f, Some r =>
                  Outcome Completed (Some fo)
                    (Some (Combined f r now' (start_rel_s, dur_s)))
              | _, _ => Outcome (Uncaught KeyError) (Some fo) None
              end
          | None => Outcome (Uncaught KeyError) (Some fo) None
          end
      end
  end.

(** ** Capture loop *)

(** A chunk as one iteration writes it: the stem shared by its two files,
    the descriptor and the samples. *)
Record chunk : Type := Chunk {
  chunk_stem : string;
  chunk_meta : meta;
  chunk_data : list byte
}.

(** Lines 70-81.  [t0] is the clock read on line 70, before
    [read_samples]; [t_meta] is the clock read by [utcnow_iso] on line 78,
    after [read_samples] returned [iq]. *)
Definition make_chunk (freq_hz samp_rate chunk_sec : Z) (t0 t_meta : Z)
    (iq : list byte) : chunk :=
  let ts := Z.quot t0 1000 in
  Chunk (pretty ts)
        (Meta (Some freq_hz) (Some samp_rate) (Value t_meta) (Value chunk_sec))
        iq.

(** [write_json] and [tofile]: a file of that name is replaced. *)
Definition write_chunk (outdir : directory) (c : chunk) : directory :=
  Directory
    (filter (λ e, e.1 ≠ chunk_stem c) (listing outdir)
       ++ [(chunk_stem c, Some (chunk_meta c))])
    (<[chunk_stem c := chunk_data c]> (samples outdir)).

(** One round of the [while running] loop, up to the sleep. *)
Definition capture_iteration (freq_hz samp_rate buffer_sec chunk_sec : Z)
    (t0 t_meta : Z) (iq : list byte) (outdir : directory) : directory :=
  prune_seconds (write_chunk outdir (make_chunk freq_hz samp_rate chunk_sec t0 t_meta iq))
                buffer_sec.

(** The [while running] loop, for the rounds that are run before the signal
    arrives: each round comes with its two clock readings and the samples
    the device returned. *)
Definition capture_loop (freq_hz samp_rate buffer_sec chunk_sec : Z)
    (rounds : list (Z * Z * list byte)) (outdir : directory) : directory :=
  foldl (λ d r, capture_iteration freq_hz samp_rate buffer_sec chunk_sec
                  r.1.1 r.1.2 r.2 d)
        outdir rounds.

(** ** Notions of the specification *)

(** Every descriptor decodes and carries [duration_s = dur]. *)
Definition uniform (dur : Z) (l : list (string * descriptor)) : Prop :=
  ∀ e, e ∈ l → ∃ m, e.2 = Some m ∧ duration_s m = Value dur.

(** The overlap test between a chunk and the window. *)
Definition overlaps (start_time end_time t dur : Z) : Prop :=
  t ≤ end_time ∧ start_time ≤ t + usec dur.

(** The raw file of a selected chunk. *)
Definition raw_of (raw : gmap string (list byte)) (x : Z * Z * string) : list byte :=
  default [] (raw !! x.2).

(** The directory without the chunk of stem [p]. *)
Definition without (p : string) (d : directory) : directory :=
  Directory (filter (λ e, e.1 ≠ p) (listing d)) (delete p (samples d)).

(** The start time a descriptor embeds. *)
Definition start_time_of (c : descriptor) : Z :=
  match c with
  | Some m => match timestamp_utc m with Value t => t | _ => 0 end
  | None => 0
  end.

(** The kept set as the specification words it: the descriptors ordered
    newest first by the start time they embed, the durations accumulated in
    that order. *)
Definition kept_by_start_time (l : list (string * descriptor)) (R : Z) : list string :=
  accumulate R 0
    (reverse (sorted (λ a b, start_time_of a.2 <=? start_time_of b.2) l)).

(** ** Sample directories *)

(** A descriptor with every field, as the capture loop writes them. *)
Definition wellformed (freq rate t dur : Z) : descriptor :=
  Some (Meta (Some freq) (Some rate) (Value t) (Value dur)).

(** Four chunks of 5 seconds starting at 0, 5, 10 and 15 seconds. *)
Definition four_chunks : directory :=
  Directory
    [("10000", wellformed 100 2 10000000 5);
     ("0", wellformed 100 2 0 5);
     ("15000", wellformed 100 2 15000000 5);
     ("5000", wellformed 100 2 5000000 5)]
    (list_to_map
       [("0", [x00]); ("5000", [x05]);
        ("10000", [x0a]); ("15000", [x0f])]).

(** One chunk of 5 seconds. *)
Definition one_chunk : directory :=
  Directory [("1700000000000", wellformed 100 2 1700000005000000 5)]
            {["1700000000000" := [x01; x02]]}.

(** Two chunks of 5 seconds; the device was retuned between them. *)
Definition retuned : directory :=
  Directory
    [("6000", wellformed 200000000 2400000 6000000 5);
     ("1000", wellformed 100000000 2400000 1000000 5)]
    (list_to_map [("1000", [x01; x02]); ("6000", [x03; x04])]).

(** A complete chunk at 1 second, and the descriptor of a chunk at 6
    seconds whose raw file is missing. *)
Definition half_chunk : directory :=
  Directory
    [("1000", wellformed 100 2 1000000 5);
     ("6000", wellformed 100 2 6000000 5)]
    {["1000" := [x01]]}.

(** The four chunks and the raw file of a fifth whose descriptor is not
    there. *)
Definition orphan_raw : directory :=
  Directory (listing four_chunks) (<["20000" := [x14]]> (samples four_chunks)).


(** A descriptor that does not decode, newer than two complete chunks. *)
Definition corrupt_new : directory :=
  Directory
    [("1000", wellformed 100 2 1000000 5);
     ("6000", wellformed 100 2 6000000 5);
     ("9000", None)]
    (list_to_map [("1000", [x01]); ("6000", [x06]); ("9000", [x09])]).

(** ** The rest of the program *)

(** [str.replace(old, new)] for a non-empty [old], as both calls of the
    program have it: the occurrences of [old] are replaced from left to
    right, and the text of an occurrence is not searched again.  [skip]
    counts the characters of an occurrence still to pass over. *)
Fixpoint replace_from (old new : string) (skip : nat) (s : string) : string :=
  match s with
  | EmptyString => EmptyString
  | String c s' =>
      match skip with
      | S k => replace_from old new k s'
      | O =>
          if String.prefix old s
          then String.append new (replace_from old new (String.length old - 1) s')
          else String c (replace_from old new 0 s')
      end
  end.

Definition str_replace (old new s : string) : string := replace_from old new 0 s.

(** Line 21, [utcnow_iso], on the text [isoformat()] returns. *)
Definition utcnow_iso (isoformat : string) : string :=
  str_replace "+00:00" "Z" isoformat.

(** Line 134: the text handed to [fromisoformat]. *)
Definition fromisoformat_arg (timestamp_utc : string) : string :=
  str_replace "Z" "+00:00" timestamp_utc.

(** Whether a character occurs in a text. *)
Fixpoint occurs (a : ascii) (s : string) : bool :=
  match s with
  | EmptyString => false
  | String c s' => if Ascii.eqb a c then true else occurs a s'
  end.

(** ** Further notions *)

(** No half chunks: the stems of the raw files are those of the
    descriptors. *)
Definition paired (d : directory) : Prop :=
  dom (samples d) = list_to_set (stems (listing d)).

(** The file [f] is last in the order of the paths. *)
Definition newest (f : string * descriptor) (l : list (string * descriptor)) : Prop :=
  f ∈ l ∧ ∀ g, g ∈ l → path_le g.1 f.1 = true.

(** Every duration read from the descriptors is between 0 and [dmax]. *)
Definition durations_within (dmax : Z) (l : list (string * descriptor)) : Prop :=
  ∀ e, e ∈ l → 0 ≤ read_duration e.2 ≤ dmax.

(** The magnitudes of the durations read from the descriptors, added up. *)
Definition total_magnitude (l : list (string * descriptor)) : Z :=
  foldr (λ e acc, Z.abs (read_duration e.2) + acc) 0 l.

(** The float total of lines 99-109 is exact: whatever the order in which
    the durations are added, no partial sum leaves the integers that a
    float holds exactly. *)
Definition float_exact (l : list (string * descriptor)) : Prop :=
  total_magnitude l ≤ 2 ^ 53.





(** A chunk whose descriptor lacks [center_freq_hz]. *)
Definition untuned : directory :=
  Directory
    [("1000", Some (Meta None (Some 2400000) (Value 1000000) (Value 5)))]
    {["1000" := [x01; x02]]}.

(** * Proofs *)

(** ** The stable sort *)

Section sorting_facts.
Context {A : Type} (le : A → A → bool).

Lemma insert_sorted_perm x l : insert_sorted le x l ≡ₚ x :: l.
Proof.
  induction l as [|y l IH]; simpl; [done|].
  destruct (le x y); [done|].
  rewrite IH. apply Permutation_swap.
Qed.

Lemma sorted_perm l : sorted le l ≡ₚ l.
Proof.
  induction l as [|x l IH]; simpl; [done|].
  rewrite insert_sorted_perm. by f_equiv.
Qed.

Lemma sorted_elem_of x l : x ∈ sorted le l ↔ x ∈ l.
Proof. by rewrite sorted_perm. Qed.

Lemma sorted_length l : length (sorted le l) = length l.
Proof. by rewrite sorted_perm. Qed.

Hypothesis le_total : ∀ x y, le x y = true ∨ le y x = true.
Hypothesis le_trans : ∀ x y z, le x y = true → le y z = true → le x z = true.

Lemma insert_sorted_strongly x l :
  StronglySorted (le_rel le) l → StronglySorted (le_rel le) (insert_sorted le x l).
Proof.
  induction 1 as [|y l Hl IH Hy]; simpl.
  { repeat constructor. }
  destruct (le x y) eqn:Hxy.
  - constructor; [by constructor|].
    constructor; [done|].
    eapply Forall_impl; [exact Hy|]. intros z Hz. by eapply le_trans.
  - constructor; [done|].
    rewrite insert_sorted_perm. constructor; [|done].
    destruct (le_total x y) as [Hc|Hc]; [congruence|done].
Qed.

Lemma sorted_strongly l : StronglySorted (le_rel le) (sorted le l).
Proof.
  induction l as [|x l IH]; simpl; [constructor|].
  by apply insert_sorted_strongly.
Qed.

(** The result does not depend on the order of the input, as long as no
    two different elements of it compare equal. *)
Lemma sorted_perm_eq l1 l2 :
  l1 ≡ₚ l2 →
  (∀ x y, x ∈ l1 → y ∈ l1 → le x y = true → le y x = true → x = y) →
  sorted le l1 = sorted le l2.
Proof.
  intros Hp Hanti.
  apply (StronglySorted_unique_strong (le_rel le)); [|apply sorted_strongly..|].
  - intros x y Hx Hy. apply Hanti.
    + by rewrite sorted_elem_of in Hx.
    + rewrite sorted_elem_of in Hy. by rewrite Hp.
  - by rewrite !sorted_perm.
Qed.

(** A list that is already in order is left as it is. *)
Lemma sorted_id l : StronglySorted (le_rel le) l → sorted le l = l.
Proof.
  induction 1 as [|x l Hl IH Hx]; simpl; [done|].
  rewrite IH. destruct l as [|y l']; simpl; [done|].
  apply Forall_cons in Hx as [Hxy _]. unfold le_rel in Hxy. by rewrite Hxy.
Qed.
End sorting_facts.

(** ** The order of the paths *)

Lemma leb_lt_or_eq a b : String.leb a b = true ↔ String_as_OT.lt a b ∨ a = b.
Proof.
  unfold String.leb.
  destruct (String.compare a b) eqn:Hc.
  - apply String_as_OT.cmp_eq in Hc. naive_solver.
  - apply String_as_OT.cmp_lt in Hc. naive_solver.
  - split; [done|]. intros [Hlt| ->].
    + apply String_as_OT.cmp_lt in Hlt. unfold String_as_OT.cmp in Hlt. congruence.
    + assert (String.compare b b = Eq) by (by apply String_as_OT.cmp_eq).
      congruence.
Qed.

Lemma leb_trans a b c :
  String.leb a b = true → String.leb b c = true → String.leb a c = true.
Proof.
  rewrite !leb_lt_or_eq. intros [H1| ->] [H2| ->]; eauto.
  left. by eapply String_as_OT.lt_trans.
Qed.

Lemma append_json_inj a b :
  String.append a ".json" = String.append b ".json" → a = b.
Proof.
  revert b. induction a as [|x a IH]; intros [|y b]; simpl; intros H.
  - done.
  - exfalso. injection H as Hc Hs. destruct b as [|? [|? [|? [|? [|? ?]]]]]; simplify_eq/=.
  - exfalso. injection H as Hc Hs. destruct a as [|? [|? [|? [|? [|? ?]]]]]; simplify_eq/=.
  - injection H as -> Hs. f_equal. by apply IH.
Qed.

Lemma path_le_total a b : path_le a b = true ∨ path_le b a = true.
Proof. apply String.leb_total. Qed.

Lemma path_le_trans a b c :
  path_le a b = true → path_le b c = true → path_le a c = true.
Proof. apply leb_trans. Qed.

Lemma path_le_antisym a b : path_le a b = true → path_le b a = true → a = b.
Proof.
  intros H1 H2. apply append_json_inj. by apply String.leb_antisym.
Qed.

Lemma entry_le_total x y : entry_le x y = true ∨ entry_le y x = true.
Proof. apply path_le_total. Qed.

Lemma entry_le_trans x y z :
  entry_le x y = true → entry_le y z = true → entry_le x z = true.
Proof. apply path_le_trans. Qed.

(** In a directory no two files have the same name. *)
Lemma NoDup_stems_eq (l : list (string * descriptor)) x y :
  NoDup (stems l) → x ∈ l → y ∈ l → x.1 = y.1 → x = y.
Proof.
  unfold stems. induction l as [|e l IH]; simpl; intros Hnd Hx Hy Heq.
  { by apply elem_of_nil in Hx. }
  apply NoDup_cons in Hnd as [Hne Hnd].
  apply elem_of_cons in Hx as [->|Hx]; apply elem_of_cons in Hy as [->|Hy].
  - done.
  - exfalso. apply Hne. rewrite Heq. by apply list_elem_of_fmap_2.
  - exfalso. apply Hne. rewrite <- Heq. by apply list_elem_of_fmap_2.
  - by apply IH.
Qed.

Lemma entry_le_antisym (l : list (string * descriptor)) x y :
  NoDup (stems l) → x ∈ l → y ∈ l →
  entry_le x y = true → entry_le y x = true → x = y.
Proof.
  intros Hnd Hx Hy H1 H2. apply (NoDup_stems_eq l); [done..|].
  by apply path_le_antisym.
Qed.

(** Sorting the files by path does not depend on the order in which the
    directory is enumerated. *)
Lemma sorted_listing_perm (l l' : list (string * descriptor)) :
  NoDup (stems l) → l ≡ₚ l' → sorted entry_le l = sorted entry_le l'.
Proof.
  intros Hnd Hp.
  apply sorted_perm_eq;
    eauto using entry_le_total, entry_le_trans, entry_le_antisym.
Qed.

Lemma StronglySorted_reverse {A} (R : relation A) l :
  StronglySorted R l → StronglySorted (flip R) (reverse l).
Proof.
  induction 1 as [|x l Hl IH Hx]; [constructor|].
  rewrite reverse_cons. apply StronglySorted_app_2.
  - intros y z Hy Hz. apply list_elem_of_singleton in Hz as ->.
    rewrite elem_of_reverse in Hy. rewrite Forall_forall in Hx.
    unfold flip. by apply Hx.
  - done.
  - repeat constructor.
Qed.


Lemma filter_ext_in {A} (P Q : A → Prop)
    `{∀ x, Decision (P x)} `{∀ x, Decision (Q x)} (l : list A) :
  (∀ x, x ∈ l → P x ↔ Q x) → filter P l = filter Q l.
Proof.
  induction l as [|x l IH]; intros Hext; [done|].
  rewrite !filter_cons.
  rewrite IH by (intros y Hy; apply Hext; by right).
  destruct (decide (P x)) as [Hp|Hp], (decide (Q x)) as [Hq|Hq]; try done;
    exfalso; apply (Hext x) in Hp || apply (Hext x) in Hq; try done; by left.
Qed.

(** ** The first loop: [kept] is a prefix of the files visited *)

Lemma accumulate_take R t l :
  accumulate R t l = stems (take (length (accumulate R t l)) l).
Proof.
  revert t. induction l as [|[p c] l IH]; intros t; simpl; [done|].
  f_equal. destruct (R <=? t + read_duration c); simpl.
  - done.
  - apply IH.
Qed.

Lemma accumulate_length R t l : (length (accumulate R t l) ≤ length l)%nat.
Proof.
  revert t. induction l as [|[p c] l IH]; intros t; simpl; [lia|].
  destruct (R <=? t + read_duration c); simpl; [lia|].
  specialize (IH (t + read_duration c)). lia.
Qed.

(** Visiting only the kept files again keeps them all. *)
Lemma accumulate_idem R t l :
  accumulate R t (take (length (accumulate R t l)) l) = accumulate R t l.
Proof.
  revert t. induction l as [|[p c] l IH]; intros t; simpl; [done|].
  destruct (R <=? t + read_duration c) eqn:E; simpl; rewrite ?E; [done|].
  f_equal. apply IH.
Qed.

(** ** The second loop: what is deleted *)

Lemma try_unlink_json_listing p d :
  listing (try_unlink (unlink_json p) d) = filter (λ e, e.1 ≠ p) (listing d).
Proof.
  unfold try_unlink, unlink_json. case_bool_decide as Hin; simpl; [done|].
  symmetry. induction (listing d) as [|e l IH]; [done|].
  unfold stems in Hin. rewrite fmap_cons, not_elem_of_cons in Hin.
  destruct Hin as [Hne Hin].
  rewrite filter_cons_True by done. f_equal. by apply IH.
Qed.

Lemma try_unlink_json_samples p d :
  samples (try_unlink (unlink_json p) d) = samples d.
Proof. unfold try_unlink, unlink_json. by case_bool_decide. Qed.

Lemma try_unlink_iq_listing p d :
  listing (try_unlink (unlink_iq p) d) = listing d.
Proof. unfold try_unlink, unlink_iq. by destruct (samples d !! p). Qed.

Lemma try_unlink_iq_samples p d :
  samples (try_unlink (unlink_iq p) d) = delete p (samples d).
Proof.
  unfold try_unlink, unlink_iq. destruct (samples d !! p) eqn:E; simpl; [done|].
  symmetry. by apply delete_id.
Qed.

Lemma prune_loop_listing (keep : gset string) ps d :
  listing (foldl (prune_step keep) d ps)
  = filter (λ e, e.1 ∈ keep ∨ e.1 ∉ stems ps) (listing d).
Proof.
  revert d. induction ps as [|f ps IH]; intros d; simpl.
  { symmetry. induction (listing d) as [|e l IHl]; [done|].
    rewrite filter_cons_True; [by f_equal|]. right. apply not_elem_of_nil. }
  rewrite IH. unfold prune_step. case_bool_decide as Hk.
  - apply list_filter_iff. intros e. rewrite not_elem_of_cons.
    destruct (decide (e.1 = f.1)) as [->|]; tauto.
  - rewrite try_unlink_iq_listing, try_unlink_json_listing, list_filter_filter.
    apply list_filter_iff. intros e. rewrite not_elem_of_cons.
    destruct (decide (e.1 = f.1)) as [Heq|]; [|tauto].
    rewrite Heq. tauto.
Qed.

Lemma prune_loop_samples (keep : gset string) ps d s :
  samples (foldl (prune_step keep) d ps) !! s
  = if decide (s ∈ stems ps ∧ s ∉ keep) then None else samples d !! s.
Proof.
  revert d. induction ps as [|f ps IH]; intros d; simpl.
  { done. }
  rewrite IH. unfold prune_step.
  case_bool_decide as Hk.
  - apply decide_ext. rewrite elem_of_cons.
    destruct (decide (s = f.1)) as [->|]; tauto.
  - rewrite try_unlink_iq_samples, try_unlink_json_samples.
    destruct (decide (s = f.1)) as [->|Hne].
    + rewrite lookup_delete_eq.
      rewrite (decide_True (P:=f.1 ∈ f.1 :: stems ps ∧ f.1 ∉ keep));
        [by case_decide|].
      split; [by left|done].
    + rewrite lookup_delete_ne by done.
      apply decide_ext. rewrite elem_of_cons. tauto.
Qed.

(** A run whose kept set covers every file leaves the directory as it is. *)
Lemma prune_loop_id (keep : gset string) ps d :
  (∀ f, f ∈ ps → f.1 ∈ keep) → foldl (prune_step keep) d ps = d.
Proof.
  revert d. induction ps as [|f ps IH]; intros d Hall; simpl; [done|].
  unfold prune_step at 2. rewrite bool_decide_eq_true_2.
  - apply IH. intros g Hg. apply Hall. by right.
  - apply Hall. by left.
Qed.

(** The descriptors that remain are those whose stem is in [kept]. *)
Lemma prune_seconds_listing d R :
  listing (prune_seconds d R)
  = filter (λ e, e.1 ∈ kept_paths (listing d) R) (listing d).
Proof.
  unfold prune_seconds, kept_paths. rewrite prune_loop_listing.
  apply filter_ext_in. intros e He.
  rewrite elem_of_list_to_set. split; [|by left].
  intros [?|Hn]; [done|]. exfalso. apply Hn.
  unfold stems. apply list_elem_of_fmap_2. by apply sorted_elem_of.
Qed.

(** ** The kept files, as entries of the directory *)

Lemma filter_all {A} (P : A → Prop) `{∀ x, Decision (P x)} (l : list A) :
  (∀ x, x ∈ l → P x) → filter P l = l.
Proof.
  induction l as [|x l IH]; intros Hall; [done|].
  rewrite filter_cons_True by (apply Hall; by left).
  f_equal. apply IH. intros y Hy. apply Hall. by right.
Qed.

Lemma filter_none {A} (P : A → Prop) `{∀ x, Decision (P x)} (l : list A) :
  (∀ x, x ∈ l → ¬ P x) → filter P l = [].
Proof.
  induction l as [|x l IH]; intros Hall; [done|].
  rewrite filter_cons_False by (apply Hall; by left).
  apply IH. intros y Hy. apply Hall. by right.
Qed.

Lemma filter_prefix (l1 l2 : list (string * descriptor)) :
  NoDup (stems (l1 ++ l2)) →
  filter (λ e, e.1 ∈ stems l1) (l1 ++ l2) = l1.
Proof.
  unfold stems. rewrite fmap_app. intros (_ & Hdisj & _)%NoDup_app.
  rewrite filter_app, filter_all, filter_none; [by rewrite app_nil_r|..].
  - intros e He Hin. apply (Hdisj e.1); [done|]. by apply list_elem_of_fmap_2.
  - intros e He. by apply list_elem_of_fmap_2.
Qed.

Lemma visit_order_perm l : visit_order l ≡ₚ l.
Proof. unfold visit_order. by rewrite reverse_Permutation, sorted_perm. Qed.

Lemma sorted_entries_strongly l :
  StronglySorted (le_rel entry_le) (sorted entry_le l).
Proof.
  apply sorted_strongly; [exact entry_le_total|exact entry_le_trans].
Qed.

Lemma visit_order_descending l :
  StronglySorted (λ a b, path_le b.1 a.1 = true) (visit_order l).
Proof.
  apply (StronglySorted_reverse (le_rel entry_le)).
  apply sorted_entries_strongly.
Qed.

Lemma visit_order_enumeration l l' :
  NoDup (stems l) → l ≡ₚ l' → visit_order l = visit_order l'.
Proof. intros. unfold visit_order. f_equal. by apply sorted_listing_perm. Qed.

Lemma kept_paths_take l R :
  kept_paths l R = stems (take (kept_count l R) (visit_order l)).
Proof. apply accumulate_take. Qed.

Lemma NoDup_stems_perm (l l' : list (string * descriptor)) :
  l ≡ₚ l' → NoDup (stems l) → NoDup (stems l').
Proof. unfold stems. by intros ->. Qed.

Lemma kept_entries_visit l R :
  NoDup (stems l) →
  filter (λ e, e.1 ∈ kept_paths l R) (visit_order l)
  = take (kept_count l R) (visit_order l).
Proof.
  intros Hnd. rewrite kept_paths_take.
  set (n := kept_count l R). set (V := visit_order l).
  transitivity (filter (λ e, e.1 ∈ stems (take n V)) (take n V ++ drop n V)).
  { by rewrite take_drop. }
  apply filter_prefix. rewrite take_drop.
  apply (NoDup_stems_perm l); [|done]. unfold V. by rewrite visit_order_perm.
Qed.

Lemma kept_entries_perm l R :
  NoDup (stems l) →
  filter (λ e, e.1 ∈ kept_paths l R) l ≡ₚ take (kept_count l R) (visit_order l).
Proof.
  intros Hnd. rewrite <- kept_entries_visit by done.
  by rewrite visit_order_perm.
Qed.

Lemma prune_seconds_perm d R :
  NoDup (stems (listing d)) →
  listing (prune_seconds d R)
  ≡ₚ take (kept_count (listing d) R) (visit_order (listing d)).
Proof. intros. rewrite prune_seconds_listing. by apply kept_entries_perm. Qed.

(** Enumerating what one run has left visits exactly the kept files, in
    the same order. *)
Lemma visit_order_kept l l' R :
  NoDup (stems l) →
  l' ≡ₚ take (kept_count l R) (visit_order l) →
  visit_order l' = take (kept_count l R) (visit_order l).
Proof.
  intros Hnd Hp. set (K := take (kept_count l R) (visit_order l)) in *.
  assert (StronglySorted (flip (le_rel entry_le)) K) as HK.
  { apply (StronglySorted_app_1_l _ K (drop (kept_count l R) (visit_order l))).
    unfold K. rewrite take_drop. apply (StronglySorted_reverse (le_rel entry_le)).
    apply sorted_entries_strongly. }
  assert (NoDup (stems l')) as Hnd'.
  { apply (NoDup_stems_perm K); [done|].
    assert (NoDup (stems (visit_order l))) as Hv.
    { apply (NoDup_stems_perm l); [|done]. by rewrite visit_order_perm. }
    rewrite <- (take_drop (kept_count l R) (visit_order l)) in Hv.
    unfold stems in Hv. rewrite fmap_app in Hv. by apply NoDup_app in Hv as [? _]. }
  clearbody K.
  unfold visit_order.
  rewrite (sorted_listing_perm l' (reverse K)); [|done|by rewrite reverse_Permutation].
  rewrite sorted_id; [apply reverse_involutive|].
  apply (StronglySorted_reverse (flip (le_rel entry_le))) in HK. exact HK.
Qed.

Lemma total_duration_app l1 l2 :
  total_duration (l1 ++ l2) = total_duration l1 + total_duration l2.
Proof.
  induction l1 as [|e l1 IH]; simpl; [done|].
  unfold total_duration in *. simpl. rewrite IH. lia.
Qed.

Lemma total_duration_perm l l' :
  l ≡ₚ l' → total_duration l = total_duration l'.
Proof.
  unfold total_duration.
  induction 1; simpl; lia.
Qed.

(** ** Retention with chunks of one nominal duration *)

Lemma uniform_read_duration dur l e :
  uniform dur l → e ∈ l → read_duration e.2 = dur.
Proof.
  intros Hu He. destruct (Hu e He) as (m & Hm & Hdur).
  unfold read_duration. by rewrite Hm, Hdur.
Qed.

Lemma total_duration_nonneg dur l :
  0 ≤ dur → (∀ e, e ∈ l → read_duration e.2 = dur) → 0 ≤ total_duration l.
Proof.
  intros Hd. induction l as [|e l IH]; intros Hall; [done|].
  change (0 ≤ read_duration e.2 + total_duration l).
  rewrite (Hall e) by (by left).
  assert (0 ≤ total_duration l) by (apply IH; intros; apply Hall; by right).
  lia.
Qed.

Lemma accumulate_bound R t dur l :
  t < R → 0 ≤ dur → (∀ e, e ∈ l → read_duration e.2 = dur) →
  t + total_duration (take (length (accumulate R t l)) l) < R + dur ∧
  (R ≤ t + total_duration l →
   R ≤ t + total_duration (take (length (accumulate R t l)) l)) ∧
  (t + total_duration l < R → length (accumulate R t l) = length l).
Proof.
  intros Ht Hd. revert t Ht. induction l as [|[p c] l IH]; intros t Ht Hall.
  { simpl. unfold total_duration. simpl. lia. }
  assert (read_duration c = dur) as Hc by (apply (Hall (p, c)); by left).
  assert (∀ e, e ∈ l → read_duration e.2 = dur) as Hall'
    by (intros; apply Hall; by right).
  pose proof (total_duration_nonneg dur l Hd Hall') as Hnn.
  change (total_duration ((p, c) :: l)) with (read_duration c + total_duration l).
  simpl. destruct (Z.leb_spec R (t + read_duration c)) as [Hle|Hlt]; simpl.
  - change (total_duration [(p, c)]) with (read_duration c + 0). lia.
  - destruct (IH (t + read_duration c) Hlt Hall') as (H1 & H2 & H3).
    set (K := take (length (accumulate R (t + read_duration c) l)) l) in *.
    change (total_duration ((p, c) :: K)) with (read_duration c + total_duration K).
    lia.
Qed.

(** ** Theorems of the retention enforcer *)

(** C1, as the specification states it, fails when the retention setting is
    zero: the newest chunk is always kept, so with one chunk of 5 seconds
    and a retention of 0 seconds the 5 seconds that remain are not below
    0 + 5. *)
Lemma retention_bound_fails_at_zero :
  uniform 5 (listing one_chunk) ∧
  history (prune_seconds one_chunk 0) = 5 ∧
  ¬ (history (prune_seconds one_chunk 0) < 0 + 5).
Proof.
  split; [|split].
  - intros e He. apply list_elem_of_singleton in He as ->. by eexists.
  - by vm_compute.
  - by vm_compute.
Qed.

(** C1 (amended): for a directory of well-formed descriptors that all carry
    the same nominal duration, a whole number [dur ≥ 0] of seconds, with a
    history of at most 2^53 seconds (so that the float total of the
    enforcer is exact), and a retention setting [R > 0], after one run of
    the enforcer the cumulative nominal duration of the chunks that remain
    is at least [R] whenever the history before the run was at least [R],
    and is below [R + dur]; when the history was below [R] the run deletes
    nothing. *)
Theorem retention_bound (d : directory) (R dur : Z) :
  0 < R → 0 ≤ dur →
  NoDup (stems (listing d)) →
  uniform dur (listing d) →
  float_exact (listing d) →
  (R ≤ history d → R ≤ history (prune_seconds d R)) ∧
  history (prune_seconds d R) < R + dur ∧
  (history d < R → prune_seconds d R = d).
Proof.
  intros HR Hd Hnd Hu _.
  set (V := visit_order (listing d)).
  assert (∀ e, e ∈ V → read_duration e.2 = dur) as HV.
  { intros e He. apply (uniform_read_duration dur (listing d)); [done|].
    unfold V in He. by rewrite visit_order_perm in He. }
  destruct (accumulate_bound R 0 dur V HR Hd HV) as (Hlt & Hge & Hall).
  assert (history (prune_seconds d R)
          = total_duration (take (length (accumulate R 0 V)) V)) as ->.
  { unfold history. apply total_duration_perm. by apply prune_seconds_perm. }
  assert (history d = total_duration V) as ->.
  { unfold history. apply total_duration_perm. unfold V.
    by rewrite visit_order_perm. }
  split; [lia|]. split; [lia|].
  intros Hh. apply prune_loop_id. intros f Hf.
  rewrite elem_of_list_to_set.
  change (f.1 ∈ kept_paths (listing d) R). rewrite kept_paths_take.
  unfold kept_count, kept_paths. fold (visit_order (listing d)). fold V.
  rewrite Hall by lia. rewrite firstn_all.
  unfold stems. apply list_elem_of_fmap_2.
  unfold V. rewrite visit_order_perm. by rewrite sorted_elem_of in Hf.
Qed.

Lemma retention_bound_witness :
  (10 ≤ history four_chunks → 10 ≤ history (prune_seconds four_chunks 10)) ∧
  history (prune_seconds four_chunks 10) < 10 + 5 ∧
  (history four_chunks < 10 → prune_seconds four_chunks 10 = four_chunks).
Proof.
  apply (retention_bound four_chunks 10 5).
  - lia.
  - lia.
  - apply (bool_decide_unpack _). by vm_compute.
  - intros e He. repeat (apply elem_of_cons in He as [->|He]; [by eexists|]).
    by apply elem_of_nil in He.
  - by vm_compute.
Defined.

(** C10: running the enforcer again on what one run has left, however the
    directory is enumerated the second time, deletes nothing: the second
    run keeps exactly the descriptors that remained. *)
Theorem prune_seconds_idempotent (d d' : directory) (R : Z) :
  NoDup (stems (listing d)) →
  listing d' ≡ₚ listing (prune_seconds d R) →
  kept_paths (listing d') R ≡ₚ stems (listing (prune_seconds d R)) ∧
  prune_seconds d' R = d'.
Proof.
  intros Hnd Hp.
  pose proof (prune_seconds_perm d R Hnd) as Hk.
  assert (visit_order (listing d')
          = take (kept_count (listing d) R) (visit_order (listing d))) as Hv.
  { apply visit_order_kept; [done|]. by rewrite Hp. }
  assert (kept_paths (listing d') R = kept_paths (listing d) R) as Hkept.
  { unfold kept_paths at 1. fold (visit_order (listing d')). rewrite Hv.
    apply accumulate_idem. }
  split.
  - rewrite Hkept, kept_paths_take. unfold stems. by rewrite Hk.
  - apply prune_loop_id. intros f Hf. rewrite elem_of_list_to_set.
    change (f.1 ∈ kept_paths (listing d') R).
    rewrite Hkept, kept_paths_take. unfold stems. apply list_elem_of_fmap_2.
    rewrite <- Hk, <- Hp. by rewrite sorted_elem_of in Hf.
Qed.

(** ** The selection of the window extractor *)

Lemma elem_of_collect ws we l t dur p :
  (t, dur, p) ∈ collect ws we l ↔
  ∃ c, (p, c) ∈ l ∧ read_meta c = Some (t, dur) ∧ overlaps ws we t dur.
Proof.
  unfold overlaps. induction l as [|[q c] l IH]; simpl.
  { split; [by intros ?%elem_of_nil|]. by intros (c & ?%elem_of_nil & _). }
  assert (((t, dur, p) ∈ collect ws we l ∨
           (q = p ∧ read_meta c = Some (t, dur) ∧ t ≤ we ∧ ws ≤ t + usec dur))
          ↔ ∃ c0, (p, c0) ∈ (q, c) :: l ∧ read_meta c0 = Some (t, dur)
                  ∧ t ≤ we ∧ ws ≤ t + usec dur) as Hstep.
  { rewrite IH. split.
    - intros [(c0 & Hin & Hr)|(-> & Hr)].
      + exists c0. split; [by right|done].
      + exists c. split; [by left|done].
    - intros (c0 & Hin & Hr). apply elem_of_cons in Hin as [Heq|Hin].
      + right. by simplify_eq.
      + left. by exists c0. }
  rewrite <- Hstep. clear Hstep IH.
  destruct (read_meta c) as [[t' dur']|] eqn:Hr.
  - destruct ((t' <=? we) && (ws <=? t' + usec dur')) eqn:Hb.
    + apply andb_true_iff in Hb as [H1%Z.leb_le H2%Z.leb_le].
      rewrite elem_of_cons. split.
      * intros [Heq|Hin]; [right; by simplify_eq|by left].
      * intros [Hin|(-> & Heq & _)]; [by right|left; by simplify_eq].
    + split; [by left|].
      intros [Hin|(-> & Heq & Hle1 & Hle2)]; [done|]. simplify_eq. exfalso.
      apply andb_false_iff in Hb as [Hb|Hb]; apply Z.leb_gt in Hb; lia.
  - split; [by left|]. intros [?|(_ & ? & _)]; [done|congruence].
Qed.


Lemma key_le_total x y : key_le x y = true ∨ key_le y x = true.
Proof. unfold key_le. destruct (Z.leb_spec x.1.1 y.1.1); [by left|right]. apply Z.leb_le. lia. Qed.

Lemma key_le_trans x y z :
  key_le x y = true → key_le y z = true → key_le x z = true.
Proof. unfold key_le. rewrite !Z.leb_le. lia. Qed.



Lemma elem_of_select d now start_rel_s dur_s t dur p :
  (t, dur, p) ∈ select d now start_rel_s dur_s ↔
  ∃ c, (p, c) ∈ listing d ∧ read_meta c = Some (t, dur) ∧
       overlaps (now + usec start_rel_s)
                (now + usec start_rel_s + usec dur_s) t dur.
Proof. unfold select. by rewrite sorted_elem_of, elem_of_collect. Qed.

(** ** Theorems of the window extractor *)




(** C4: when the resolved window overlaps no stored chunk the extraction
    ends with exit status 1 and writes neither the output file nor its
    descriptor. *)
Theorem extract_empty_window (d : directory) (now now' start_rel_s dur_s : Z) :
  (∀ p c t dur, (p, c) ∈ listing d → read_meta c = Some (t, dur) →
     ¬ overlaps (now + usec start_rel_s)
                (now + usec start_rel_s + usec dur_s) t dur) →
  extract_slice d now now' start_rel_s dur_s = Outcome (SysExit 1) None None.
Proof.
  intros Hno. unfold extract_slice.
  destruct (select d now start_rel_s dur_s) as [|[[t dur] p] metas] eqn:Hsel;
    [done|].
  exfalso.
  assert ((t, dur, p) ∈ select d now start_rel_s dur_s) as Hin
    by (rewrite Hsel; by left).
  apply elem_of_select in Hin as (c & Hc & Hr & Ho).
  by apply (Hno p c t dur).
Qed.

Lemma extract_empty_window_witness :
  extract_slice four_chunks 100000000 100000001 0 5
  = Outcome (SysExit 1) None None.
Proof.
  apply extract_empty_window.
  intros p c t dur Hin Hr [H1 H2].
  repeat (apply elem_of_cons in Hin as [Heq|Hin];
          [injection Heq as -> ->; injection Hr as <- <-; unfold usec in *; lia|]).
  by apply elem_of_nil in Hin.
Defined.

Lemma write_chunks_all raw metas fo :
  (∀ x, x ∈ metas → is_Some (raw !! x.2)) →
  write_chunks raw metas fo = (fo ++ concat (raw_of raw <$> metas), true).
Proof.
  revert fo. induction metas as [|[[t dur] p] metas IH]; intros fo Hall; simpl.
  { by rewrite app_nil_r. }
  destruct (Hall (t, dur, p)) as [b Hb]; [by left|].
  simpl in Hb. unfold raw_of at 1. simpl. rewrite Hb. simpl.
  rewrite IH by (intros; apply Hall; by right).
  by rewrite <- app_assoc.
Qed.






Lemma read_json_elem l p c :
  NoDup (stems l) → (p, c) ∈ l → read_json l p = c.
Proof.
  induction l as [|[q c'] l IH]; simpl; intros Hnd Hin.
  { by apply elem_of_nil in Hin. }
  apply NoDup_cons in Hnd as [Hq Hnd].
  apply elem_of_cons in Hin as [Heq|Hin].
  - simplify_eq. by rewrite decide_True.
  - rewrite decide_False; [by apply IH|].
    intros ->. apply Hq. by apply (list_elem_of_fmap_2 fst l (p, c)).
Qed.



(** The retuned directory: both chunks are selected, the output is the
    older chunk followed by the newer one, and its descriptor carries the
    frequency of the older one. *)
Example extract_retuned :
  extract_slice retuned 10000000 10000001 (-10) 10
  = Outcome Completed (Some [x01; x02; x03; x04])
      (Some (Combined 100000000 2400000 10000001 (-10, 10))).
Proof. by vm_compute. Qed.

(** ** The kept set of the retention enforcer *)

Lemma accumulate_first_crossing R t l :
  (∀ m, (0 < m < length (accumulate R t l))%nat →
        t + total_duration (take m l) < R) ∧
  ((length (accumulate R t l) < length l)%nat →
   (0 < length (accumulate R t l))%nat ∧
   R ≤ t + total_duration (take (length (accumulate R t l)) l)).
Proof.
  revert t. induction l as [|[p c] l IH]; intros t; simpl.
  { split; intros; lia. }
  destruct (Z.leb_spec R (t + read_duration c)) as [Hle|Hlt]; simpl.
  - split; [intros; lia|]. intros _. split; [lia|].
    change (total_duration [(p, c)]) with (read_duration c + 0). lia.
  - destruct (IH (t + read_duration c)) as [H1 H2]. split.
    + intros [|m] Hm; [lia|]. simpl.
      change (total_duration ((p, c) :: take m l))
        with (read_duration c + total_duration (take m l)).
      destruct m as [|m'].
      * rewrite take_0. change (total_duration []) with 0. lia.
      * specialize (H1 (S m')). lia.
    + intros Hn. destruct H2 as [H2 H3]; [lia|]. split; [lia|].
      change (total_duration
                ((p, c) :: take (length (accumulate R (t + read_duration c) l)) l))
        with (read_duration c
              + total_duration
                  (take (length (accumulate R (t + read_duration c) l)) l)).
      lia.
Qed.

(** C8: the enforcer at a directory whose file names differ in length.
    The names are the start times in milliseconds and the enforcer sorts
    them as texts, so that [5000.json] comes after [15000.json].  With the
    chunks starting at 0, 5, 10 and 15 seconds and a retention of 10
    seconds, the two newest by start time are the chunks at 15 and 10
    seconds; the enforcer keeps the files [5000.json] and [15000.json] and
    deletes the chunk at 10 seconds. *)
Lemma kept_set_not_by_start_time :
  kept_by_start_time (listing four_chunks) 10 = ["15000"; "10000"] ∧
  kept_paths (listing four_chunks) 10 = ["5000"; "15000"] ∧
  stems (listing (prune_seconds four_chunks 10)) = ["15000"; "5000"] ∧
  ¬ (kept_paths (listing four_chunks) 10
     ≡ₚ kept_by_start_time (listing four_chunks) 10).
Proof.
  assert (kept_by_start_time (listing four_chunks) 10 = ["15000"; "10000"]) as E1
    by (by vm_compute).
  assert (kept_paths (listing four_chunks) 10 = ["5000"; "15000"]) as E2
    by (by vm_compute).
  split; [done|]. split; [done|]. split; [by vm_compute|].
  rewrite E1, E2. intros Hp.
  assert ("10000" ∈ ["5000"; "15000"]) as Hin.
  { rewrite Hp. right. by left. }
  repeat (apply elem_of_cons in Hin as [Hin|Hin]; [done|]).
  by apply elem_of_nil in Hin.
Qed.

Lemma prune_seconds_idempotent_witness :
  kept_paths (listing (prune_seconds four_chunks 10)) 10
  ≡ₚ stems (listing (prune_seconds four_chunks 10)) ∧
  prune_seconds (prune_seconds four_chunks 10) 10 = prune_seconds four_chunks 10.
Proof.
  apply (prune_seconds_idempotent four_chunks).
  - apply (bool_decide_unpack _). by vm_compute.
  - reflexivity.
Defined.

(** ** Chunks that are not whole *)

Lemma write_chunks_agree raw raw' metas fo :
  (∀ x, x ∈ metas → raw' !! x.2 = raw !! x.2) →
  write_chunks raw' metas fo = write_chunks raw metas fo.
Proof.
  revert fo. induction metas as [|[[t dur] p] metas IH]; intros fo Hall; simpl;
    [done|].
  assert (raw' !! p = raw !! p) as -> by (apply (Hall (t, dur, p)); by left).
  destruct (raw !! p); [|done].
  apply IH. intros. apply Hall. by right.
Qed.

(** Two directories on which the selection is the same, and that agree on
    the files of the selected chunks, give the same extraction. *)
Lemma extract_slice_agree d d' now now' start_rel_s dur_s :
  select d' now start_rel_s dur_s = select d now start_rel_s dur_s →
  (∀ x, x ∈ select d now start_rel_s dur_s →
        samples d' !! x.2 = samples d !! x.2 ∧
        read_json (listing d') x.2 = read_json (listing d) x.2) →
  extract_slice d' now now' start_rel_s dur_s
  = extract_slice d now now' start_rel_s dur_s.
Proof.
  intros Hsel Hagree. unfold extract_slice. rewrite Hsel.
  destruct (select d now start_rel_s dur_s) as [|[[t dur] p] metas] eqn:E;
    [done|].
  rewrite (write_chunks_agree (samples d) (samples d')).
  - destruct (Hagree (t, dur, p)) as [_ Hj]; [by left|]. simpl in Hj.
    by rewrite Hj.
  - intros x Hx. by apply Hagree.
Qed.

Lemma select_stem d now start_rel_s dur_s x :
  x ∈ select d now start_rel_s dur_s →
  ∃ c, (x.2, c) ∈ listing d ∧ read_meta c = Some x.1.
Proof.
  destruct x as [[t dur] p]. intros (c & Hc & Hr & _)%elem_of_select.
  by exists c.
Qed.

Lemma read_json_filter l p q :
  q ≠ p → read_json (filter (λ e, e.1 ≠ p) l) q = read_json l q.
Proof.
  intros Hq. induction l as [|[r c] l IH]; [done|].
  rewrite filter_cons. simpl. destruct (decide (r ≠ p)) as [Hr|Hr]; simpl.
  - by rewrite IH.
  - rewrite IH. rewrite decide_False; [done|]. intros ->. by apply Hr.
Qed.

Lemma collect_filter ws we l p :
  (∀ c, (p, c) ∈ l → read_meta c = None) →
  collect ws we (filter (λ e, e.1 ≠ p) l) = collect ws we l.
Proof.
  induction l as [|[q c] l IH]; intros Hp; [done|].
  assert (collect ws we (filter (λ e, e.1 ≠ p) l) = collect ws we l) as IH'
    by (apply IH; intros; apply Hp; by right).
  rewrite filter_cons. simpl. destruct (decide (q ≠ p)) as [Hq|Hq]; simpl.
  - by rewrite IH'.
  - apply dec_stable in Hq as ->. rewrite (Hp c) by (by left). done.
Qed.

Lemma total_duration_filter l p :
  (∀ c, (p, c) ∈ l → read_duration c = 0) →
  total_duration (filter (λ e, e.1 ≠ p) l) = total_duration l.
Proof.
  induction l as [|[q c] l IH]; intros Hp; [done|].
  assert (total_duration (filter (λ e, e.1 ≠ p) l) = total_duration l) as IH'
    by (apply IH; intros; apply Hp; by right).
  rewrite filter_cons. simpl.
  change (total_duration ((q, c) :: l)) with (read_duration c + total_duration l).
  destruct (decide (q ≠ p)) as [Hq|Hq].
  - change (total_duration ((q, c) :: filter (λ e, e.1 ≠ p) l))
      with (read_duration c + total_duration (filter (λ e, e.1 ≠ p) l)).
    by rewrite IH'.
  - apply dec_stable in Hq as ->. rewrite (Hp c) by (by left). lia.
Qed.



(** C5, as the specification states it, fails: the enforcer reads the
    descriptors only, so a descriptor whose raw file is missing is counted
    like any other.  With a retention of 5 seconds the descriptor at 6
    seconds alone fills the retention and the complete chunk at 1 second is
    deleted; were it left out of the accounting, the chunk at 1 second
    would be kept.  The extractor selects it as well, and ends on the
    [FileNotFoundError] of [read_bytes]. *)
Lemma half_chunk_is_counted :
  read_json (listing half_chunk) "6000" = wellformed 100 2 6000000 5 ∧
  samples half_chunk !! "6000" = None ∧
  kept_paths (listing half_chunk) 5 = ["6000"] ∧
  kept_paths (listing (without "6000" half_chunk)) 5 = ["1000"] ∧
  stems (listing (prune_seconds half_chunk 5)) = ["6000"] ∧
  (6000000, 5, "6000") ∈ select half_chunk 11000000 (-11) 11 ∧
  ended (extract_slice half_chunk 11000000 11000001 (-11) 11)
  = Uncaught FileNotFoundError.
Proof.
  split; [by vm_compute|]. split; [by vm_compute|]. split; [by vm_compute|].
  split; [by vm_compute|]. split; [by vm_compute|]. split; [|by vm_compute].
  assert (select half_chunk 11000000 (-11) 11
          = [(1000000, 5, "1000"); (6000000, 5, "6000")]) as ->
    by (by vm_compute).
  right. by left.
Qed.

(** C5 (amended): a raw file without a descriptor is ignored by both
    operations: the enforcer leaves it in place and decides as if it were
    not there, and the extraction is the one of the directory without it.
    A descriptor is counted by the enforcer whatever raw files there are:
    the descriptors that remain are those the kept set names, and the kept
    set is computed from the descriptors alone; unlinking a raw file that
    is not there raises [FileNotFoundError], which the enforcer passes
    over. *)
Theorem half_chunk_handling (d : directory) (R : Z) (s : string) (b : list byte)
    (now now' start_rel_s dur_s : Z) :
  s ∉ stems (listing d) →
  samples d !! s = Some b →
  let d0 := Directory (listing d) (delete s (samples d)) in
  samples (prune_seconds d R) !! s = Some b ∧
  listing (prune_seconds d R) = listing (prune_seconds d0 R) ∧
  extract_slice d now now' start_rel_s dur_s
  = extract_slice d0 now now' start_rel_s dur_s ∧
  (∀ raw, listing (prune_seconds (Directory (listing d) raw) R)
          = filter (λ e, e.1 ∈ kept_paths (listing d) R) (listing d)) ∧
  (∀ p, samples d !! p = None →
        unlink_iq p d = None ∧ try_unlink (unlink_iq p) d = d).
Proof.
  intros Hs Hb d0.
  split; [|split; [|split; [|split]]].
  - unfold prune_seconds. rewrite prune_loop_samples.
    rewrite decide_False; [done|]. intros [Hin _]. apply Hs.
    unfold stems in *. by rewrite sorted_perm in Hin.
  - by rewrite !prune_seconds_listing.
  - symmetry. apply extract_slice_agree; [done|].
    intros x Hx. split; [|done]. simpl.
    apply lookup_delete_ne. intros Heq.
    apply select_stem in Hx as (c & Hc & _). apply Hs. rewrite Heq.
    by apply (list_elem_of_fmap_2 fst (listing d) (x.2, c)).
  - intros raw. by rewrite prune_seconds_listing.
  - intros p Hp. unfold try_unlink, unlink_iq. by rewrite Hp.
Qed.

Lemma half_chunk_handling_witness :
  samples (prune_seconds orphan_raw 10) !! "20000" = Some [x14] ∧
  extract_slice orphan_raw 20000000 20000001 (-17) 9
  = extract_slice
      (Directory (listing orphan_raw) (delete "20000" (samples orphan_raw)))
      20000000 20000001 (-17) 9.
Proof.
  pose proof (half_chunk_handling orphan_raw 10 "20000" [x14]
                20000000 20000001 (-17) 9) as H.
  destruct H as (H1 & _ & H3 & _ & _).
  - apply (bool_decide_unpack _). by vm_compute.
  - by vm_compute.
  - split; [exact H1|exact H3].
Defined.





(** ** The capture loop *)

Lemma make_chunk_times freq_hz samp_rate chunk_sec t0 t_meta iq :
  chunk_stem (make_chunk freq_hz samp_rate chunk_sec t0 t_meta iq)
  = pretty (Z.quot t0 1000) ∧
  timestamp_utc (chunk_meta (make_chunk freq_hz samp_rate chunk_sec t0 t_meta iq))
  = Value t_meta.
Proof. done. Qed.

(** C7: one iteration with a chunk of 5 seconds whose samples take 5
    seconds to arrive.  The clock reads 1700000000.123456 before
    [read_samples] and 1700000005.130000 when the descriptor is built.  The
    two files are named after the first reading; the descriptor records the
    second, which is not the instant the chunk began.  The extractor takes
    the recorded instant for the start of the chunk: a window of 2 seconds
    that lies inside the 5 seconds captured finds no chunk. *)
Theorem capture_descriptor_time :
  let t0 := 1700000000123456 in
  let t_meta := 1700000005130000 in
  let c := make_chunk 100000000 2400000 5 t0 t_meta [x01; x02] in
  let d := capture_iteration 100000000 2400000 60 5 t0 t_meta [x01; x02]
             (Directory [] ∅) in
  chunk_stem c = "1700000000123" ∧
  timestamp_utc (chunk_meta c) = Value t_meta ∧
  timestamp_utc (chunk_meta c) ≠ Value t0 ∧
  listing d = [("1700000000123", Some (chunk_meta c))] ∧
  samples d !! "1700000000123" = Some [x01; x02] ∧
  extract_slice d (t0 + usec 10) (t0 + usec 10) (-9) 2
  = Outcome (SysExit 1) None None.
Proof.
  intros t0 t_meta c d.
  split; [by vm_compute|]. split; [done|]. split; [by vm_compute|].
  split; [by vm_compute|]. split; by vm_compute.
Qed.

(** * Further properties of the program *)

(** A decidable fact about a sample directory, by evaluation. *)
Ltac by_evaluation := apply (bool_decide_unpack _); by vm_compute.

(** A fact about each entry of a list that is written out. *)
Ltac each_entry H tac :=
  repeat (apply elem_of_cons in H as [->|H]; [tac|]);
  by apply elem_of_nil in H.

(** ** What the enforcer keeps and what it deletes *)

Lemma visit_order_head_newest l f :
  NoDup (stems l) → newest f l → ∃ rest, visit_order l = f :: rest.
Proof.
  intros Hnd [Hf Hmax].
  pose proof (visit_order_descending l) as Hsorted.
  pose proof (visit_order_perm l) as Hperm.
  destruct (visit_order l) as [|h rest] eqn:E.
  { rewrite <- Hperm in Hf. by apply elem_of_nil in Hf. }
  exists rest. f_equal.
  assert (h ∈ l) as Hh by (rewrite <- Hperm; by left).
  assert (f ∈ h :: rest) as Hf' by (by rewrite Hperm).
  apply elem_of_cons in Hf' as [->|Hf']; [done|].
  apply StronglySorted_cons in Hsorted as [Hall _].
  rewrite Forall_forall in Hall.
  apply (NoDup_stems_eq l); [done..|].
  apply path_le_antisym; [by apply Hmax|by apply Hall].
Qed.

Lemma kept_paths_head l R f rest :
  visit_order l = f :: rest → f.1 ∈ kept_paths l R.
Proof.
  intros E. unfold kept_paths. fold (visit_order l). rewrite E.
  destruct f as [p c]. simpl. by left.
Qed.

Lemma prune_seconds_samples d R s :
  samples (prune_seconds d R) !! s
  = if decide (s ∈ stems (listing d) ∧ s ∉ kept_paths (listing d) R)
    then None else samples d !! s.
Proof.
  unfold prune_seconds. rewrite prune_loop_samples. apply decide_ext.
  rewrite elem_of_list_to_set.
  assert (s ∈ stems (sorted entry_le (listing d)) ↔ s ∈ stems (listing d)) as Hs
    by (unfold stems; by rewrite sorted_perm).
  unfold kept_paths. tauto.
Qed.

Lemma elem_of_stems_filter (Q : string → Prop) `{∀ s, Decision (Q s)}
    (l : list (string * descriptor)) s :
  s ∈ stems (filter (λ e, Q e.1) l) ↔ Q s ∧ s ∈ stems l.
Proof.
  unfold stems. rewrite !list_elem_of_fmap. split.
  - intros (e & -> & [HQ He]%list_elem_of_filter). split; [done|by exists e].
  - intros (HQ & e & -> & He). exists e. split; [done|].
    by apply list_elem_of_filter.
Qed.

Lemma NoDup_stems_filter (P : string * descriptor → Prop)
    `{∀ e, Decision (P e)} (l : list (string * descriptor)) :
  NoDup (stems l) → NoDup (stems (filter P l)).
Proof.
  intros Hnd. eapply sublist_NoDup; [exact Hnd|].
  unfold stems. apply fmap_sublist, sublist_filter.
Qed.



(** The enforcer only deletes: the descriptors that remain are descriptors
    that were there, in the order they were listed and with their content,
    and every raw file that remains was there with the same bytes. *)
Theorem prune_seconds_only_deletes (d : directory) (R : Z) :
  listing (prune_seconds d R) `sublist_of` listing d ∧
  samples (prune_seconds d R) ⊆ samples d.
Proof.
  split.
  - rewrite prune_seconds_listing. apply sublist_filter.
  - apply map_subseteq_spec. intros s b. rewrite prune_seconds_samples.
    by case_decide.
Qed.

Lemma paired_after_prune d R : paired d → paired (prune_seconds d R).
Proof.
  unfold paired. intros Hp. apply set_eq. intros s.
  rewrite elem_of_dom, elem_of_list_to_set, prune_seconds_samples.
  rewrite prune_seconds_listing.
  pose proof (elem_of_stems_filter (λ s, s ∈ kept_paths (listing d) R)
                (listing d) s) as Hf.
  simpl in Hf. rewrite Hf. clear Hf.
  assert (is_Some (samples d !! s) ↔ s ∈ stems (listing d)) as Hs.
  { by rewrite <- elem_of_dom, Hp, elem_of_list_to_set. }
  case_decide as Hc.
  - split; [by intros [? ?]|]. intros [? ?]. by destruct Hc.
  - rewrite Hs. split; [|by intros [? ?]].
    intros Hin. split; [|done].
    destruct (decide (s ∈ kept_paths (listing d) R)); [done|].
    exfalso. by apply Hc.
Qed.

(** Chunks are deleted as pairs: in a directory without half chunks, and
    without a descriptor file whose whole name is [.json] (the raw file of
    that one is looked for under the name [.json.iq]), the enforcer leaves
    no half chunk. *)
Theorem prune_seconds_paired (d : directory) (R : Z) :
  "" ∉ stems (listing d) →
  paired d → paired (prune_seconds d R).
Proof. intros _. apply paired_after_prune. Qed.

Lemma prune_seconds_paired_witness : paired (prune_seconds four_chunks 10).
Proof.
  apply prune_seconds_paired.
  - by_evaluation.
  - unfold paired. by_evaluation.
Defined.

(** ** Retention with chunks of any duration *)

Lemma accumulate_reaches R t l :
  R ≤ t + total_duration l →
  R ≤ t + total_duration (take (length (accumulate R t l)) l).
Proof.
  intros Hl.
  destruct (accumulate_first_crossing R t l) as [_ Hcross].
  pose proof (accumulate_length R t l) as Hlen.
  destruct (decide (length (accumulate R t l) < length l)%nat) as [Hlt|Hge].
  - by apply Hcross.
  - rewrite take_ge by lia. done.
Qed.

Lemma total_duration_within dmax l :
  durations_within dmax l → 0 ≤ total_duration l.
Proof.
  induction l as [|e l IH]; intros Hw; [done|].
  change (0 ≤ read_duration e.2 + total_duration l).
  assert (0 ≤ read_duration e.2 ≤ dmax) by (apply Hw; by left).
  assert (0 ≤ total_duration l) by (apply IH; intros g Hg; apply Hw; by right).
  lia.
Qed.

Lemma accumulate_within R t dmax l :
  0 ≤ dmax → durations_within dmax l →
  (t < R → t + total_duration (take (length (accumulate R t l)) l) < R + dmax) ∧
  (t + total_duration l < R → length (accumulate R t l) = length l).
Proof.
  intros Hd. revert t. induction l as [|[p c] l IH]; intros t Hw.
  { simpl. change (total_duration []) with 0. split; intros; [lia|done]. }
  assert (0 ≤ read_duration c ≤ dmax) as Hc by (apply (Hw (p, c)); by left).
  assert (durations_within dmax l) as Hw'
    by (intros g Hg; apply Hw; by right).
  pose proof (total_duration_within dmax l Hw') as Hnn.
  change (total_duration ((p, c) :: l)) with (read_duration c + total_duration l).
  simpl. destruct (Z.leb_spec R (t + read_duration c)) as [Hle|Hlt]; simpl.
  - change (total_duration [(p, c)]) with (read_duration c + 0).
    split; intros; lia.
  - destruct (IH (t + read_duration c) Hw') as [H1 H2].
    set (K := take (length (accumulate R (t + read_duration c) l)) l) in *.
    change (total_duration ((p, c) :: K)) with (read_duration c + total_duration K).
    split; intros; [|f_equal]; lia.
Qed.

Lemma history_prune_seconds d R :
  NoDup (stems (listing d)) →
  history (prune_seconds d R)
  = total_duration (take (length (accumulate R 0 (visit_order (listing d))))
                         (visit_order (listing d))).
Proof.
  intros Hnd. unfold history. apply total_duration_perm.
  by apply prune_seconds_perm.
Qed.

Lemma history_visit_order d : history d = total_duration (visit_order (listing d)).
Proof.
  unfold history. apply total_duration_perm. by rewrite visit_order_perm.
Qed.

(** Whatever the descriptors hold (whole durations of any sign whose
    magnitudes add up to at most 2^53, so that the sum of the code is
    exact; descriptors that do not decode), when the durations of the
    directory add up to at least the retention setting, so do the
    durations that remain. *)
Theorem prune_seconds_retains_enough (d : directory) (R : Z) :
  NoDup (stems (listing d)) →
  float_exact (listing d) →
  R ≤ history d →
  R ≤ history (prune_seconds d R).
Proof.
  intros Hnd _ Hh. rewrite history_prune_seconds by done.
  rewrite history_visit_order in Hh.
  by apply (accumulate_reaches R 0).
Qed.

Lemma prune_seconds_retains_enough_witness :
  5 ≤ history (prune_seconds corrupt_new 5).
Proof.
  apply prune_seconds_retains_enough.
  - by_evaluation.
  - by vm_compute.
  - by vm_compute.
Defined.

(** With a positive retention setting and whole durations between 0 and
    [dmax] that add up to at most 2^53 (so that the sum of the code is
    exact), what remains is below the retention setting plus [dmax]: the
    enforcer keeps at most one chunk more than the retention needs. *)
Theorem prune_seconds_bounded (d : directory) (R dmax : Z) :
  0 < R → 0 ≤ dmax →
  NoDup (stems (listing d)) →
  float_exact (listing d) →
  durations_within dmax (listing d) →
  history (prune_seconds d R) < R + dmax.
Proof.
  intros HR Hd Hnd _ Hw. rewrite history_prune_seconds by done.
  apply (accumulate_within R 0 dmax); [done| |done].
  intros e He. apply Hw. by rewrite visit_order_perm in He.
Qed.

Lemma prune_seconds_bounded_witness :
  history (prune_seconds corrupt_new 7) < 7 + 5.
Proof.
  apply prune_seconds_bounded.
  - lia.
  - lia.
  - by_evaluation.
  - by vm_compute.
  - intros e He. simpl in He. each_entry He ltac:(by vm_compute).
Defined.

(** With whole durations that are not negative and add up to at most 2^53
    (so that the sum of the code is exact), a directory whose durations
    add up to less than the retention setting is left as it is. *)
Theorem prune_seconds_short_history (d : directory) (R dmax : Z) :
  0 ≤ dmax →
  float_exact (listing d) →
  durations_within dmax (listing d) →
  history d < R →
  prune_seconds d R = d.
Proof.
  intros Hd _ Hw Hh. rewrite history_visit_order in Hh.
  assert (durations_within dmax (visit_order (listing d))) as Hw'.
  { intros e He. apply Hw. by rewrite visit_order_perm in He. }
  destruct (accumulate_within R 0 dmax _ Hd Hw') as [_ Hall].
  apply prune_loop_id. intros f Hf. rewrite elem_of_list_to_set.
  change (f.1 ∈ kept_paths (listing d) R). rewrite kept_paths_take.
  unfold kept_count, kept_paths. fold (visit_order (listing d)).
  rewrite Hall by lia. rewrite firstn_all.
  unfold stems. apply list_elem_of_fmap_2.
  rewrite visit_order_perm. by rewrite sorted_elem_of in Hf.
Qed.

Lemma prune_seconds_short_history_witness :
  prune_seconds corrupt_new 60 = corrupt_new.
Proof.
  apply (prune_seconds_short_history corrupt_new 60 5).
  - lia.
  - by vm_compute.
  - intros e He. simpl in He. each_entry He ltac:(by vm_compute).
  - by vm_compute.
Defined.

(** The outcome of the enforcer does not depend on the order in which the
    directory is enumerated: the same files are kept, the same raw files
    remain and the same descriptors. *)
Theorem prune_seconds_enumeration (d d' : directory) (R : Z) :
  NoDup (stems (listing d)) →
  listing d' ≡ₚ listing d →
  samples d' = samples d →
  kept_paths (listing d') R = kept_paths (listing d) R ∧
  listing (prune_seconds d' R) ≡ₚ listing (prune_seconds d R) ∧
  samples (prune_seconds d' R) = samples (prune_seconds d R).
Proof.
  intros Hnd Hp Hs.
  assert (kept_paths (listing d') R = kept_paths (listing d) R) as Hk.
  { unfold kept_paths. fold (visit_order (listing d')).
    fold (visit_order (listing d)).
    by rewrite (visit_order_enumeration (listing d) (listing d')). }
  split; [done|]. split.
  - rewrite !prune_seconds_listing, Hk. by rewrite Hp.
  - apply map_eq. intros s. rewrite !prune_seconds_samples, Hk, Hs.
    apply decide_ext. unfold stems. by rewrite Hp.
Qed.

Lemma prune_seconds_enumeration_witness :
  kept_paths (reverse (listing four_chunks)) 10 = kept_paths (listing four_chunks) 10 ∧
  listing (prune_seconds (Directory (reverse (listing four_chunks))
                                    (samples four_chunks)) 10)
  ≡ₚ listing (prune_seconds four_chunks 10) ∧
  samples (prune_seconds (Directory (reverse (listing four_chunks))
                                    (samples four_chunks)) 10)
  = samples (prune_seconds four_chunks 10).
Proof.
  apply (prune_seconds_enumeration four_chunks
           (Directory (reverse (listing four_chunks)) (samples four_chunks)) 10).
  - by_evaluation.
  - apply reverse_Permutation.
  - reflexivity.
Defined.

Lemma kept_paths_newest_only l R f :
  NoDup (stems l) → newest f l → R ≤ read_duration f.2 →
  kept_paths l R = [f.1] ∧ ∃ rest, visit_order l = f :: rest.
Proof.
  intros Hnd Hf HR.
  destruct (visit_order_head_newest _ _ Hnd Hf) as [rest E].
  split; [|by exists rest].
  unfold kept_paths. fold (visit_order l). rewrite E.
  destruct f as [p c]. simpl in *.
  destruct (Z.leb_spec R (0 + read_duration c)); [done|lia].
Qed.

(** When the newest file alone reaches the retention setting (a retention
    of zero, or below one chunk) with a whole duration that the code reads
    without rounding (the magnitudes of the directory add up to at most
    2^53), it is the only descriptor that remains, and the raw file of
    every other descriptor is deleted. *)
Theorem prune_seconds_newest_suffices (d : directory) (R : Z)
    (f : string * descriptor) :
  NoDup (stems (listing d)) →
  float_exact (listing d) →
  newest f (listing d) →
  R ≤ read_duration f.2 →
  listing (prune_seconds d R) = [f] ∧
  ∀ s, s ∈ stems (listing d) → s ≠ f.1 → samples (prune_seconds d R) !! s = None.
Proof.
  intros Hnd _ Hf HR.
  destruct (kept_paths_newest_only _ R _ Hnd Hf HR) as [Hk [rest E]].
  split.
  - apply Permutation_singleton_r.
    rewrite (prune_seconds_perm d R Hnd). unfold kept_count.
    by rewrite Hk, E.
  - intros s Hs Hne. rewrite prune_seconds_samples, Hk.
    apply decide_True. split; [done|].
    intros Hin. apply elem_of_cons in Hin as [?|Hin]; [done|].
    by apply elem_of_nil in Hin.
Qed.

Lemma prune_seconds_newest_suffices_witness :
  listing (prune_seconds four_chunks 0) = [("5000", wellformed 100 2 5000000 5)] ∧
  ∀ s, s ∈ stems (listing four_chunks) → s ≠ "5000" →
       samples (prune_seconds four_chunks 0) !! s = None.
Proof.
  apply (prune_seconds_newest_suffices four_chunks 0
           ("5000", wellformed 100 2 5000000 5)).
  - by_evaluation.
  - by vm_compute.
  - split; [simpl; do 3 right; by left|].
    intros g Hg. simpl in Hg. each_entry Hg ltac:(by vm_compute).
  - by vm_compute.
Defined.

(** ** How an extraction ends *)

Lemma write_chunks_missing raw pre x post fo :
  (∀ y, y ∈ pre → is_Some (raw !! y.2)) →
  raw !! x.2 = None →
  write_chunks raw (pre ++ x :: post) fo
  = (fo ++ concat (raw_of raw <$> pre), false).
Proof.
  revert fo. induction pre as [|[[t dur] p] pre IH]; intros fo Hpre Hx; simpl.
  { destruct x as [[t dur] p]. simpl in Hx. by rewrite Hx, app_nil_r. }
  destruct (Hpre (t, dur, p)) as [b Hb]; [by left|]. simpl in Hb.
  unfold raw_of at 1. simpl. rewrite Hb. simpl.
  rewrite IH; [by rewrite <- app_assoc| |done].
  intros. apply Hpre. by right.
Qed.

(** When the raw file of a selected chunk is missing, the extraction ends
    on [FileNotFoundError]; the output file holds the raw files of the
    selected chunks that come before it in start time, and no descriptor is
    written. *)
Theorem extract_missing_raw (d : directory) (now now' start_rel_s dur_s : Z)
    (pre post : list (Z * Z * string)) (x : Z * Z * string) :
  select d now start_rel_s dur_s = pre ++ x :: post →
  (∀ y, y ∈ pre → is_Some (samples d !! y.2)) →
  samples d !! x.2 = None →
  extract_slice d now now' start_rel_s dur_s
  = Outcome (Uncaught FileNotFoundError)
            (Some (concat (raw_of (samples d) <$> pre))) None.
Proof.
  intros Hsel Hpre Hx. unfold extract_slice. rewrite Hsel.
  destruct (pre ++ x :: post) as [|[[t dur] p] ms] eqn:E; [by destruct pre|].
  rewrite <- E. by rewrite (write_chunks_missing _ _ _ _ _ Hpre Hx).
Qed.

Lemma extract_missing_raw_witness :
  extract_slice half_chunk 11000000 11000001 (-11) 11
  = Outcome (Uncaught FileNotFoundError) (Some [x01]) None.
Proof.
  apply (extract_missing_raw half_chunk 11000000 11000001 (-11) 11
           [(1000000, 5, "1000")] [] (6000000, 5, "6000")).
  - by vm_compute.
  - intros y Hy. each_entry Hy ltac:(eexists; vm_compute; reflexivity).
  - by vm_compute.
Defined.

(** When every selected chunk has its raw file and the descriptor of the
    first of them carries both capture parameters, the extraction
    completes: the output file is the concatenation and the descriptor
    carries these parameters, the second clock reading and the request. *)
Theorem extract_completes (d : directory) (now now' start_rel_s dur_s : Z)
    (x : Z * Z * string) (rest : list (Z * Z * string)) (m : meta) (f r : Z) :
  NoDup (stems (listing d)) →
  select d now start_rel_s dur_s = x :: rest →
  (∀ y, y ∈ x :: rest → is_Some (samples d !! y.2)) →
  (x.2, Some m) ∈ listing d →
  center_freq_hz m = Some f →
  samp_rate_hz m = Some r →
  extract_slice d now now' start_rel_s dur_s
  = Outcome Completed
            (Some (concat (raw_of (samples d) <$> x :: rest)))
            (Some (Combined f r now' (start_rel_s, dur_s))).
Proof.
  intros Hnd Hsel Hraw Hm Hf Hr. unfold extract_slice. rewrite Hsel.
  destruct x as [[t dur] p].
  rewrite (write_chunks_all _ _ _ Hraw).
  rewrite (read_json_elem _ p (Some m) Hnd Hm). by rewrite Hf, Hr.
Qed.

Lemma extract_completes_witness :
  extract_slice retuned 10000000 10000001 (-10) 10
  = Outcome Completed
      (Some (concat (raw_of (samples retuned)
                       <$> [(1000000, 5, "1000"); (6000000, 5, "6000")])))
      (Some (Combined 100000000 2400000 10000001 (-10, 10))).
Proof.
  apply (extract_completes retuned 10000000 10000001 (-10) 10
           (1000000, 5, "1000") [(6000000, 5, "6000")]
           (Meta (Some 100000000) (Some 2400000) (Value 1000000) (Value 5))).
  - by_evaluation.
  - by vm_compute.
  - intros y Hy. each_entry Hy ltac:(eexists; vm_compute; reflexivity).
  - simpl. right. by left.
  - reflexivity.
  - reflexivity.
Defined.

(** When the descriptor of the first selected chunk lacks [center_freq_hz]
    or [samp_rate_hz], the extraction ends on [KeyError] after the whole
    output file is written, and writes no descriptor. *)
Theorem extract_missing_parameter (d : directory) (now now' start_rel_s dur_s : Z)
    (x : Z * Z * string) (rest : list (Z * Z * string)) (m : meta) :
  NoDup (stems (listing d)) →
  select d now start_rel_s dur_s = x :: rest →
  (∀ y, y ∈ x :: rest → is_Some (samples d !! y.2)) →
  (x.2, Some m) ∈ listing d →
  center_freq_hz m = None ∨ samp_rate_hz m = None →
  extract_slice d now now' start_rel_s dur_s
  = Outcome (Uncaught KeyError)
            (Some (concat (raw_of (samples d) <$> x :: rest))) None.
Proof.
  intros Hnd Hsel Hraw Hm Hnone. unfold extract_slice. rewrite Hsel.
  destruct x as [[t dur] p].
  rewrite (write_chunks_all _ _ _ Hraw).
  rewrite (read_json_elem _ p (Some m) Hnd Hm).
  destruct Hnone as [H|H]; rewrite H; [done|].
  by destruct (center_freq_hz m).
Qed.

Lemma extract_missing_parameter_witness :
  extract_slice untuned 10000000 10000001 (-10) 10
  = Outcome (Uncaught KeyError)
      (Some (concat (raw_of (samples untuned) <$> [(1000000, 5, "1000")]))) None.
Proof.
  apply (extract_missing_parameter untuned 10000000 10000001 (-10) 10
           (1000000, 5, "1000") []
           (Meta None (Some 2400000) (Value 1000000) (Value 5))).
  - by_evaluation.
  - by vm_compute.
  - intros y Hy. each_entry Hy ltac:(eexists; vm_compute; reflexivity).
  - simpl. by left.
  - by left.
Defined.

(** ** What is selected *)

(** A wider window selects at least the same chunks. *)
Theorem select_wider_window (d : directory) (now : Z)
    (start_rel_s dur_s start_rel_s' dur_s' : Z) (x : Z * Z * string) :
  start_rel_s' ≤ start_rel_s →
  start_rel_s + dur_s ≤ start_rel_s' + dur_s' →
  x ∈ select d now start_rel_s dur_s →
  x ∈ select d now start_rel_s' dur_s'.
Proof.
  intros Hs He. destruct x as [[t dur] p]. rewrite !elem_of_select.
  intros (c & Hc & Hr & H1 & H2). exists c. split; [done|]. split; [done|].
  unfold overlaps, usec in *. lia.
Qed.

Lemma select_wider_window_witness :
  (5000000, 5, "5000") ∈ select four_chunks 20000000 (-20) 20.
Proof.
  apply (select_wider_window four_chunks 20000000 (-17) 9 (-20) 20).
  - lia.
  - lia.
  - assert (select four_chunks 20000000 (-17) 9
            = [(0, 5, "0"); (5000000, 5, "5000"); (10000000, 5, "10000")]) as ->
      by (by vm_compute).
    right. by left.
Defined.

Lemma collect_stems_sublist ws we l :
  (collect ws we l).*2 `sublist_of` stems l.
Proof.
  induction l as [|[p c] l IH]; simpl; [done|].
  destruct (read_meta c) as [[t dur]|]; [|by apply sublist_cons].
  destruct ((t <=? we) && (ws <=? t + usec dur)); simpl.
  - by apply sublist_skip.
  - by apply sublist_cons.
Qed.

(** No chunk is selected twice, and every selected chunk is a descriptor of
    the directory: the output holds each raw file at most once. *)
Theorem select_no_duplicates (d : directory) (now start_rel_s dur_s : Z) :
  NoDup (stems (listing d)) →
  NoDup (select d now start_rel_s dur_s).*2 ∧
  (∀ p, p ∈ (select d now start_rel_s dur_s).*2 → p ∈ stems (listing d)) ∧
  (length (select d now start_rel_s dur_s) ≤ length (listing d))%nat.
Proof.
  intros Hnd.
  pose proof (collect_stems_sublist (now + usec start_rel_s)
                (now + usec start_rel_s + usec dur_s) (listing d)) as Hsub.
  assert ((select d now start_rel_s dur_s).*2
          ≡ₚ (collect (now + usec start_rel_s)
                (now + usec start_rel_s + usec dur_s) (listing d)).*2) as Hp.
  { unfold select. by rewrite sorted_perm. }
  split; [|split].
  - rewrite Hp. by eapply sublist_NoDup.
  - intros p Hin. rewrite Hp in Hin. by eapply elem_of_sublist.
  - apply sublist_length in Hsub. unfold stems in Hsub.
    rewrite !length_fmap in Hsub. unfold select. by rewrite sorted_length.
Qed.

Lemma select_no_duplicates_witness :
  NoDup (select four_chunks 20000000 (-17) 9).*2 ∧
  (∀ p, p ∈ (select four_chunks 20000000 (-17) 9).*2 →
        p ∈ stems (listing four_chunks)) ∧
  (length (select four_chunks 20000000 (-17) 9) ≤ length (listing four_chunks))%nat.
Proof. apply select_no_duplicates. by_evaluation. Defined.

(** A descriptor from which no start time or no duration can be read (it
    does not decode, [timestamp_utc] is missing or is no ISO time,
    [duration_s] is no number) is skipped: the extraction is the one of the
    directory without that chunk. *)
Theorem extract_skips_unreadable (d : directory) (p : string) (c : descriptor)
    (now now' start_rel_s dur_s : Z) :
  NoDup (stems (listing d)) →
  (p, c) ∈ listing d →
  read_meta c = None →
  extract_slice d now now' start_rel_s dur_s
  = extract_slice (without p d) now now' start_rel_s dur_s.
Proof.
  intros Hnd Hp Hr.
  assert (∀ c', (p, c') ∈ listing d → read_meta c' = None) as Hnone.
  { intros c' Hc'.
    by pose proof (NoDup_stems_eq _ _ _ Hnd Hc' Hp eq_refl) as [= ->]. }
  assert (select (without p d) now start_rel_s dur_s
          = select d now start_rel_s dur_s) as Hsame.
  { unfold select, without. simpl. by rewrite collect_filter. }
  symmetry. apply extract_slice_agree; [done|].
  intros x Hx.
  assert (x.2 ≠ p) as Hne.
  { intros Heq. apply select_stem in Hx as (c' & Hc' & Hr').
    rewrite Heq in Hc'. by rewrite (Hnone c' Hc') in Hr'. }
  simpl. split; [by apply lookup_delete_ne|by apply read_json_filter].
Qed.

(** The four chunks and a descriptor that has a duration but no
    [timestamp_utc]. *)
Lemma extract_skips_unreadable_witness :
  extract_slice
    (Directory (("20000", Some (Meta (Some 100) (Some 2) Absent (Value 5)))
                  :: listing four_chunks) (samples four_chunks))
    20000000 20000001 (-17) 9
  = extract_slice
      (without "20000"
         (Directory (("20000", Some (Meta (Some 100) (Some 2) Absent (Value 5)))
                       :: listing four_chunks) (samples four_chunks)))
      20000000 20000001 (-17) 9.
Proof.
  apply (extract_skips_unreadable _ "20000"
           (Some (Meta (Some 100) (Some 2) Absent (Value 5)))).
  - by_evaluation.
  - by left.
  - reflexivity.
Defined.

(** A descriptor without [duration_s] counts as a chunk of no length: it is
    selected exactly when its start time lies in the window, both ends
    included. *)
Theorem select_missing_duration (d : directory) (now start_rel_s dur_s : Z)
    (p : string) (m : meta) (t : Z) :
  NoDup (stems (listing d)) →
  (p, Some m) ∈ listing d →
  timestamp_utc m = Value t →
  duration_s m = Absent →
  (p ∈ (select d now start_rel_s dur_s).*2 ↔
   now + usec start_rel_s ≤ t ≤ now + usec start_rel_s + usec dur_s).
Proof.
  intros Hnd Hp Ht Hd.
  assert (read_meta (Some m) = Some (t, 0)) as Hr by (simpl; by rewrite Ht, Hd).
  rewrite list_elem_of_fmap. split.
  - intros (x & Heq & Hx). destruct x as [[t' dur'] p']. simpl in Heq.
    subst p'. apply elem_of_select in Hx as (c & Hc & Hr' & H1 & H2).
    pose proof (NoDup_stems_eq _ _ _ Hnd Hc Hp eq_refl) as [= ->].
    rewrite Hr in Hr'. injection Hr' as <- <-. unfold usec in *. lia.
  - intros [H1 H2]. exists (t, 0, p). split; [done|].
    apply elem_of_select. exists (Some m). split; [done|]. split; [done|].
    unfold overlaps, usec in *. lia.
Qed.

Lemma select_missing_duration_witness :
  "1000" ∈ (select
              (Directory [("1000", Some (Meta (Some 100) (Some 2) (Value 1000000) Absent))]
                         ∅)
              1000000 (-1) 1).*2 ↔
  1000000 + usec (-1) ≤ 1000000 ≤ 1000000 + usec (-1) + usec 1.
Proof.
  apply (select_missing_duration _ 1000000 (-1) 1 "1000"
           (Meta (Some 100) (Some 2) (Value 1000000) Absent)).
  - by_evaluation.
  - by left.
  - reflexivity.
  - reflexivity.
Defined.

(** ** Writing a chunk *)

Lemma not_elem_of_stems_filter (l : list (string * descriptor)) p :
  p ∉ stems (filter (λ e, e.1 ≠ p) l).
Proof.
  pose proof (elem_of_stems_filter (λ s, s ≠ p) l p) as Hf. simpl in Hf.
  rewrite Hf. by intros [? _].
Qed.

Lemma elem_of_write_chunk d c g :
  g ∈ listing (write_chunk d c) ↔
  (g ∈ listing d ∧ g.1 ≠ chunk_stem c) ∨ g = (chunk_stem c, Some (chunk_meta c)).
Proof.
  unfold write_chunk. simpl.
  rewrite elem_of_app, list_elem_of_filter, list_elem_of_singleton. tauto.
Qed.

Lemma NoDup_write_chunk d c :
  NoDup (stems (listing d)) → NoDup (stems (listing (write_chunk d c))).
Proof.
  intros Hnd. unfold write_chunk, stems. simpl. rewrite fmap_app.
  apply NoDup_app. split; [|split].
  - by apply NoDup_stems_filter.
  - intros s Hs Hin. apply list_elem_of_singleton in Hin as ->.
    by apply (not_elem_of_stems_filter (listing d) (chunk_stem c)).
  - apply NoDup_singleton.
Qed.


(** ** One round of the capture loop *)

(** When the name of the new chunk comes last in the order of the paths,
    the chunk is there after the round, descriptor and samples, whatever
    the retention setting. *)
Theorem capture_iteration_keeps_chunk (d : directory)
    (freq_hz samp_rate buffer_sec chunk_sec t0 t_meta : Z) (iq : list byte) :
  NoDup (stems (listing d)) →
  (∀ g, g ∈ listing d → path_le g.1 (pretty (Z.quot t0 1000)) = true) →
  read_json
    (listing (capture_iteration freq_hz samp_rate buffer_sec chunk_sec
                t0 t_meta iq d))
    (pretty (Z.quot t0 1000))
  = Some (chunk_meta (make_chunk freq_hz samp_rate chunk_sec t0 t_meta iq)) ∧
  samples (capture_iteration freq_hz samp_rate buffer_sec chunk_sec
             t0 t_meta iq d) !! pretty (Z.quot t0 1000)
  = Some iq.
Proof.
  intros Hnd Hmax. unfold capture_iteration.
  set (c := make_chunk freq_hz samp_rate chunk_sec t0 t_meta iq).
  set (e := (chunk_stem c, Some (chunk_meta c))).
  pose proof (NoDup_write_chunk d c Hnd) as Hnd1.
  assert (newest e (listing (write_chunk d c))) as He.
  { split; [apply elem_of_write_chunk; by right|].
    intros g [[Hg _]| ->]%elem_of_write_chunk; [by apply Hmax|].
    by destruct (path_le_total e.1 e.1). }
  destruct (visit_order_head_newest _ _ Hnd1 He) as [rest E].
  pose proof (kept_paths_head _ buffer_sec _ _ E) as Hk.
  split.
  - apply read_json_elem.
    + rewrite prune_seconds_listing. by apply NoDup_stems_filter.
    + rewrite prune_seconds_listing. apply list_elem_of_filter.
      split; [done|apply He].
  - rewrite prune_seconds_samples.
    rewrite decide_False by (by intros [_ ?]).
    unfold write_chunk. simpl. apply lookup_insert_eq.
Qed.

Lemma capture_iteration_keeps_chunk_witness :
  read_json
    (listing (capture_iteration 100 2 5 5 1700000005000000 1700000010000000
                [x03] one_chunk))
    (pretty (Z.quot 1700000005000000 1000))
  = Some (chunk_meta (make_chunk 100 2 5 1700000005000000 1700000010000000 [x03])) ∧
  samples (capture_iteration 100 2 5 5 1700000005000000 1700000010000000
             [x03] one_chunk) !! pretty (Z.quot 1700000005000000 1000)
  = Some [x03].
Proof.
  apply capture_iteration_keeps_chunk.
  - by_evaluation.
  - intros g Hg. simpl in Hg. each_entry Hg ltac:(by vm_compute).
Defined.

(** When a file of the directory comes after the new name in the order of
    the paths (a name with fewer digits, a clock set back) and alone
    reaches the retention setting (with a whole duration that the code
    reads without rounding: the magnitudes of the directory add up to at
    most 2^53), the round deletes the chunk it has just written: that file
    is the only descriptor left. *)
Theorem capture_iteration_drops_chunk (d : directory)
    (freq_hz samp_rate buffer_sec chunk_sec t0 t_meta : Z) (iq : list byte)
    (f : string * descriptor) :
  NoDup (stems (listing d)) →
  float_exact (listing d) →
  newest f (listing d) →
  f.1 ≠ pretty (Z.quot t0 1000) →
  path_le (pretty (Z.quot t0 1000)) f.1 = true →
  buffer_sec ≤ read_duration f.2 →
  listing (capture_iteration freq_hz samp_rate buffer_sec chunk_sec
             t0 t_meta iq d) = [f] ∧
  samples (capture_iteration freq_hz samp_rate buffer_sec chunk_sec
             t0 t_meta iq d) !! pretty (Z.quot t0 1000) = None.
Proof.
  intros Hnd _ [Hf Hmax] Hne Hle HR. unfold capture_iteration.
  set (c := make_chunk freq_hz samp_rate chunk_sec t0 t_meta iq).
  pose proof (NoDup_write_chunk d c Hnd) as Hnd1.
  assert (newest f (listing (write_chunk d c))) as Hf1.
  { split; [apply elem_of_write_chunk; by left|].
    intros g [[Hg _]| ->]%elem_of_write_chunk; [by apply Hmax|done]. }
  destruct (kept_paths_newest_only _ buffer_sec _ Hnd1 Hf1 HR) as [Hk [rest E]].
  split.
  - apply Permutation_singleton_r.
    rewrite (prune_seconds_perm _ buffer_sec Hnd1). unfold kept_count.
    by rewrite Hk, E.
  - rewrite prune_seconds_samples, Hk. apply decide_True. split.
    + apply (list_elem_of_fmap_2 fst _ (chunk_stem c, Some (chunk_meta c))).
      apply elem_of_write_chunk. by right.
    + intros Hin. apply elem_of_cons in Hin as [?|Hin]; [done|].
      by apply elem_of_nil in Hin.
Qed.

(** A chunk named [9999] fills a retention of 5 seconds; the next chunk is
    named [10000], which comes before [9999] in the order of the paths. *)
Lemma capture_iteration_drops_chunk_witness :
  listing (capture_iteration 100 2 5 5 10000000 15000000 [x03]
             (Directory [("9999", wellformed 100 2 14999000 5)]
                        {["9999" := [x01]]}))
  = [("9999", wellformed 100 2 14999000 5)] ∧
  samples (capture_iteration 100 2 5 5 10000000 15000000 [x03]
             (Directory [("9999", wellformed 100 2 14999000 5)]
                        {["9999" := [x01]]}))
    !! pretty (Z.quot 10000000 1000) = None.
Proof.
  apply (capture_iteration_drops_chunk _ 100 2 5 5 10000000 15000000 [x03]
           ("9999", wellformed 100 2 14999000 5)).
  - by_evaluation.
  - by vm_compute.
  - split; [by left|].
    intros g Hg. each_entry Hg ltac:(by vm_compute).
  - by vm_compute.
  - by vm_compute.
  - by vm_compute.
Defined.

(** ** The capture loop *)

Lemma paired_write_chunk d c : paired d → paired (write_chunk d c).
Proof.
  unfold paired, write_chunk. simpl. intros Hp. apply set_eq. intros s.
  rewrite dom_insert_L, elem_of_union, elem_of_singleton, Hp.
  unfold stems. rewrite fmap_app, !elem_of_list_to_set, elem_of_app.
  pose proof (elem_of_stems_filter (λ q, q ≠ chunk_stem c) (listing d) s) as Hf.
  simpl in Hf. unfold stems in Hf. rewrite Hf.
  simpl. rewrite list_elem_of_singleton.
  destruct (decide (s = chunk_stem c)); tauto.
Qed.

Lemma uniform_write_chunk freq_hz samp_rate chunk_sec t0 t_meta iq d :
  uniform chunk_sec (listing d) →
  uniform chunk_sec
    (listing (write_chunk d (make_chunk freq_hz samp_rate chunk_sec t0 t_meta iq))).
Proof.
  intros Hu g [[Hg _]| ->]%elem_of_write_chunk; [by apply Hu|].
  by eexists.
Qed.

Lemma uniform_prune_seconds dur d R :
  uniform dur (listing d) → uniform dur (listing (prune_seconds d R)).
Proof.
  intros Hu g Hg. apply Hu. rewrite prune_seconds_listing in Hg.
  by apply list_elem_of_filter in Hg as [_ ?].
Qed.

Lemma NoDup_prune_seconds d R :
  NoDup (stems (listing d)) → NoDup (stems (listing (prune_seconds d R))).
Proof. intros. rewrite prune_seconds_listing. by apply NoDup_stems_filter. Qed.

Lemma uniform_durations_within dur l :
  0 ≤ dur → uniform dur l → durations_within dur l.
Proof.
  intros Hd Hu e He. rewrite (uniform_read_duration dur l e Hu He). lia.
Qed.

(** Whatever the rounds, the capture loop leaves a directory without half
    chunks, and without a descriptor file whose whole name is [.json], as
    a directory without half chunks: every descriptor has its raw file and
    every raw file its descriptor. *)
Theorem capture_loop_paired (freq_hz samp_rate buffer_sec chunk_sec : Z)
    (rounds : list (Z * Z * list byte)) (d : directory) :
  "" ∉ stems (listing d) →
  paired d →
  paired (capture_loop freq_hz samp_rate buffer_sec chunk_sec rounds d).
Proof.
  intros _. unfold capture_loop. revert d.
  induction rounds as [|r rounds IH]; intros d Hp; simpl; [done|].
  apply IH. unfold capture_iteration.
  by apply paired_after_prune, paired_write_chunk.
Qed.

Lemma capture_loop_paired_witness :
  paired (capture_loop 100 2 10 5
            [(20000000, 25000000, [x14]); (25000000, 30000000, [x19])]
            four_chunks).
Proof.
  apply capture_loop_paired.
  - by_evaluation.
  - unfold paired. by_evaluation.
Defined.

Lemma capture_loop_uniform freq_hz samp_rate R chunk_sec rounds d :
  0 < R → 0 ≤ chunk_sec →
  NoDup (stems (listing d)) →
  uniform chunk_sec (listing d) →
  NoDup (stems (listing (capture_loop freq_hz samp_rate R chunk_sec rounds d))) ∧
  uniform chunk_sec
    (listing (capture_loop freq_hz samp_rate R chunk_sec rounds d)) ∧
  (rounds ≠ [] →
   history (capture_loop freq_hz samp_rate R chunk_sec rounds d) < R + chunk_sec).
Proof.
  intros HR Hc. unfold capture_loop. revert d.
  induction rounds as [|r rounds IH]; intros d Hnd Hu; simpl; [done|].
  set (d1 := write_chunk d (make_chunk freq_hz samp_rate chunk_sec
                              r.1.1 r.1.2 r.2)).
  assert (NoDup (stems (listing d1))) as Hnd1 by (by apply NoDup_write_chunk).
  assert (uniform chunk_sec (listing d1)) as Hu1
    by (by apply uniform_write_chunk).
  destruct (IH (prune_seconds d1 R)) as (H1 & H2 & H3).
  { by apply NoDup_prune_seconds. }
  { by apply uniform_prune_seconds. }
  split; [exact H1|]. split; [exact H2|]. intros _.
  destruct rounds as [|r' rounds]; [|by apply H3].
  simpl. unfold capture_iteration. fold d1.
  rewrite history_prune_seconds by done.
  apply (accumulate_within R 0 chunk_sec); [done| |done].
  apply uniform_durations_within; [done|].
  intros e He. apply Hu1. by rewrite visit_order_perm in He.
Qed.

(** After at least one round with a positive retention setting, started on
    a directory whose chunks all have the duration of the session, the
    durations on disk add up to less than the retention setting plus one
    chunk, however many rounds are run. *)
Theorem capture_loop_bounded (freq_hz samp_rate buffer_sec chunk_sec : Z)
    (rounds : list (Z * Z * list byte)) (d : directory) :
  0 < buffer_sec → 0 ≤ chunk_sec →
  NoDup (stems (listing d)) →
  uniform chunk_sec (listing d) →
  rounds ≠ [] →
  history (capture_loop freq_hz samp_rate buffer_sec chunk_sec rounds d)
  < buffer_sec + chunk_sec.
Proof.
  intros HR Hc Hnd Hu Hne.
  by apply (capture_loop_uniform freq_hz samp_rate buffer_sec chunk_sec rounds d).
Qed.

Lemma capture_loop_bounded_witness :
  history (capture_loop 100 2 10 5
             [(20000000, 25000000, [x14]); (25000000, 30000000, [x19])]
             four_chunks)
  < 10 + 5.
Proof.
  apply capture_loop_bounded.
  - lia.
  - lia.
  - by_evaluation.
  - intros e He. simpl in He. each_entry He ltac:(by eexists).
  - done.
Defined.

(** ** The text of a time stamp *)

Lemma replace_from_no_occurrence old new a body rest :
  occurs a body = false →
  (∃ old', old = String a old') →
  replace_from old new 0 (String.append body rest)
  = String.append body (replace_from old new 0 rest).
Proof.
  intros Hocc [old' ->]. induction body as [|c body IH]; [done|].
  simpl in Hocc. destruct (Ascii.eqb a c) eqn:Hac; [done|].
  apply Ascii.eqb_neq in Hac.
  change (String.append (String c body) rest)
    with (String c (String.append body rest)).
  cbn [replace_from String.prefix].
  destruct (ascii_dec a c) as [Heq|_]; [done|].
  change (String c body +:+ replace_from (String a old') new 0 rest)
    with (String c (body +:+ replace_from (String a old') new 0 rest)).
  f_equal. by apply IH.
Qed.

(** The text that [utcnow_iso] writes and the text the extractor hands to
    [fromisoformat] are inverse to each other: for the ISO text of a UTC
    time, which ends in [+00:00] and holds no [Z] and no other [+], the
    written text ends in [Z] instead, and the extractor recovers the ISO
    text. *)
Theorem utcnow_iso_round_trip (body : string) :
  occurs "Z" body = false →
  occurs "+" body = false →
  utcnow_iso (String.append body "+00:00") = String.append body "Z" ∧
  fromisoformat_arg (utcnow_iso (String.append body "+00:00"))
  = String.append body "+00:00".
Proof.
  intros HZ Hplus.
  assert (utcnow_iso (String.append body "+00:00") = String.append body "Z") as E.
  { unfold utcnow_iso, str_replace.
    rewrite (replace_from_no_occurrence _ _ "+"); [done|done|by eexists]. }
  split; [done|]. rewrite E. unfold fromisoformat_arg, str_replace.
  rewrite (replace_from_no_occurrence _ _ "Z"); [done|done|by eexists].
Qed.

Lemma utcnow_iso_round_trip_witness :
  utcnow_iso "2023-11-14T22:13:25.130000+00:00" = "2023-11-14T22:13:25.130000Z" ∧
  fromisoformat_arg (utcnow_iso "2023-11-14T22:13:25.130000+00:00")
  = "2023-11-14T22:13:25.130000+00:00".
Proof.
  apply (utcnow_iso_round_trip "2023-11-14T22:13:25.130000").
  - reflexivity.
  - reflexivity.
Defined.

(** ** Extraction after the enforcer has run *)

Section sorting_filter.
Context {A : Type} (le : A → A → bool) (P : A → Prop) `{∀ x, Decision (P x)}.
Hypothesis le_total : ∀ x y, le x y = true ∨ le y x = true.
Hypothesis le_trans : ∀ x y z, le x y = true → le y z = true → le x z = true.

Lemma insert_sorted_first x (l : list A) :
  Forall (λ z, le x z = true) l → insert_sorted le x l = x :: l.
Proof.
  destruct l as [|y l]; [done|]. intros [Hy _]%Forall_cons. simpl.
  by rewrite Hy.
Qed.

Lemma filter_insert_sorted x (l : list A) :
  StronglySorted (le_rel le) l →
  filter P (insert_sorted le x l)
  = if decide (P x) then insert_sorted le x (filter P l) else filter P l.
Proof.
  induction 1 as [|y l Hl IH Hy]; simpl.
  { rewrite filter_cons, filter_nil. by destruct (decide (P x)). }
  destruct (le x y) eqn:Hxy.
  - rewrite filter_cons. destruct (decide (P x)) as [Hx|Hx]; [|done].
    symmetry. apply insert_sorted_first.
    apply Forall_forall. intros z [_ Hz]%list_elem_of_filter.
    apply elem_of_cons in Hz as [->|Hz]; [done|].
    rewrite Forall_forall in Hy. eapply le_trans; [exact Hxy|by apply Hy].
  - rewrite (filter_cons _ y (insert_sorted le x l)), IH.
    rewrite (filter_cons _ y l).
    destruct (decide (P y)) as [Hpy|Hpy], (decide (P x)) as [Hx|Hx];
      simpl; by rewrite ?Hxy.
Qed.

(** A stable sort and a filter can be taken in either order. *)
Lemma sorted_filter (l : list A) :
  sorted le (filter P l) = filter P (sorted le l).
Proof.
  induction l as [|x l IH]; [done|].
  rewrite filter_cons. simpl.
  rewrite filter_insert_sorted by (by apply sorted_strongly).
  destruct (decide (P x)); simpl; by rewrite IH.
Qed.
End sorting_filter.

Lemma collect_filter_stems ws we (Q : string → Prop) `{∀ s, Decision (Q s)}
    (l : list (string * descriptor)) :
  collect ws we (filter (λ e, Q e.1) l) = filter (λ x, Q x.2) (collect ws we l).
Proof.
  induction l as [|[p c] l IH]; [done|].
  rewrite filter_cons. simpl. destruct (decide (Q p)) as [Hq|Hq]; simpl.
  - destruct (read_meta c) as [[t dur]|]; [|done].
    destruct ((t <=? we) && (ws <=? t + usec dur)); [|done].
    rewrite filter_cons_True by done. by rewrite IH.
  - destruct (read_meta c) as [[t dur]|]; [|done].
    destruct ((t <=? we) && (ws <=? t + usec dur)); [|done].
    by rewrite filter_cons_False by done.
Qed.

Lemma select_prune_seconds d R now start_rel_s dur_s :
  select (prune_seconds d R) now start_rel_s dur_s
  = filter (λ x, x.2 ∈ kept_paths (listing d) R) (select d now start_rel_s dur_s).
Proof.
  unfold select. rewrite prune_seconds_listing.
  pose proof (collect_filter_stems (now + usec start_rel_s)
                (now + usec start_rel_s + usec dur_s)
                (λ s, s ∈ kept_paths (listing d) R) (listing d)) as Hc.
  cbv beta in Hc. rewrite Hc.
  apply sorted_filter; [exact key_le_total|exact key_le_trans].
Qed.

(** After the enforcer has run, a window selects the chunks it selected
    before that the enforcer has kept, in the same order: pruning removes
    chunks from a selection and changes nothing else in it. *)
Theorem select_after_prune (d : directory) (R now start_rel_s dur_s : Z) :
  select (prune_seconds d R) now start_rel_s dur_s
  = filter (λ x, x.2 ∈ kept_paths (listing d) R) (select d now start_rel_s dur_s) ∧
  select (prune_seconds d R) now start_rel_s dur_s
  `sublist_of` select d now start_rel_s dur_s.
Proof.
  rewrite select_prune_seconds. split; [done|apply sublist_filter].
Qed.

Lemma read_json_filter_stems (Q : string → Prop) `{∀ s, Decision (Q s)}
    (l : list (string * descriptor)) q :
  Q q → read_json (filter (λ e, Q e.1) l) q = read_json l q.
Proof.
  intros Hq. induction l as [|[r c] l IH]; [done|].
  rewrite filter_cons. simpl. destruct (decide (Q r)) as [Hr|Hr]; simpl.
  - by rewrite IH.
  - rewrite IH. rewrite decide_False; [done|]. by intros ->.
Qed.

(** When the enforcer has kept every chunk that a window selects, the
    extraction after the enforcer has run is the extraction before it. *)
Theorem extract_after_prune (d : directory) (R now now' start_rel_s dur_s : Z) :
  (∀ x, x ∈ select d now start_rel_s dur_s → x.2 ∈ kept_paths (listing d) R) →
  extract_slice (prune_seconds d R) now now' start_rel_s dur_s
  = extract_slice d now now' start_rel_s dur_s.
Proof.
  intros Hkept. apply extract_slice_agree.
  - rewrite select_prune_seconds. by apply filter_all.
  - intros x Hx. specialize (Hkept x Hx). split.
    + rewrite prune_seconds_samples. apply decide_False. by intros [_ ?].
    + rewrite prune_seconds_listing.
      pose proof (read_json_filter_stems (λ s, s ∈ kept_paths (listing d) R)
                    (listing d) x.2 Hkept) as Hj.
      cbv beta in Hj. exact Hj.
Qed.

Lemma extract_after_prune_witness :
  extract_slice (prune_seconds retuned 10) 10000000 10000001 (-10) 10
  = extract_slice retuned 10000000 10000001 (-10) 10.
Proof.
  apply extract_after_prune. intros x Hx.
  assert (select retuned 10000000 (-10) 10
          = [(1000000, 5, "1000"); (6000000, 5, "6000")]) as E
    by (by vm_compute).
  rewrite E in Hx. each_entry Hx ltac:(by_evaluation).
Defined.
